(** * sep_points: greedy separation of points by axis-parallel lines

    A shallow embedding of [main.c] and the properties of its separation
    engine: the connectivity graph ([link_points], [unlink_points]), the
    candidate generator ([pre_separate]), the scoring ([closest_point],
    [links_to_break]), the commit ([finalize_lines]) and the greedy loop of
    [main].

    Modelling conventions.
    - The global arrays are lists holding the entries written so far; a
      pointer to [mypoints[k]] is the index [k], a NULL pointer is [None].
      Reading an entry that was never written, or one past the capacity of
      the array, is undefined behaviour in C and is the outcome [Fault] here.
      The counters [num_lines] and [num_all_lines] always equal the number
      of entries written to [final_lines] and [lines]; they are the lengths
      of these lists.
    - [unsigned int] arithmetic wraps modulo 2^32 ([wrap32]).
    - A [float] is the rational it denotes, kept in lowest terms. This is
      exact as long as the coordinates are below 2^23 in magnitude, where
      the conversion from [int], the sum of two coordinates and the halving
      are all exact in binary32.
    - [exit(0)] is the outcome [Exit]; the [while] loop of [main] takes a
      bound on the number of iterations and yields [OutOfFuel] past it. *)

From Stdlib Require Import ZArith QArith Lia.
From stdpp Require Import base list sorting relations.

Open Scope Z_scope.

(** ** Outcomes of a run *)

Inductive result (A : Type) : Type :=
| Ok (a : A)
| Fault
| Exit
| OutOfFuel.
Arguments Ok {A} a.
Arguments Fault {A}.
Arguments Exit {A}.
Arguments OutOfFuel {A}.

#[global] Instance result_ret : MRet result := λ A a, Ok a.
#[global] Instance result_bind : MBind result := λ A B f r,
  match r with
  | Ok a => f a
  | Fault => Fault
  | Exit => Exit
  | OutOfFuel => OutOfFuel
  end.

(** Dereferencing: [None] is an invalid pointer or index. *)
Definition valid {A} (o : option A) : result A :=
  match o with
  | Some a => Ok a
  | None => Fault
  end.

(** [for (a in l) s = body a s] with early exit on a failure. *)
Fixpoint foldM {A S} (body : A → S → result S) (l : list A) (s : S) : result S :=
  match l with
  | [] => Ok s
  | a :: l' => s' ← body a s; foldM body l' s'
  end.

(** [for (i = from; i < from + count; i++) s = body i s]. *)
Definition for_loop {S} (from count : nat) (body : nat → S → result S) (s : S) : result S :=
  foldM body (seq from count) s.

(** ** Data *)

Definition MAX_POINTS : nat := 100.

Definition wrap32 (z : Z) : Z := z mod 2 ^ 32.

Inductive Axis := V | H.

Record myline := Line { axis : Axis; coord : Q }.

Record mypoint := Point {
  id : nat;
  x : Z;
  y : Z;
  connections : list (option nat) }.

Inductive File_Status :=
| FILE_SUCCESS
| FILE_NOT_EXISTS
| FILE_NO_POINTS
| FILE_ERROR_POINTS.

(** The globals of the program. *)
Record state := State {
  mypoints : list mypoint;
  x_points : list nat;
  y_points : list nat;
  lines : list (option myline);
  final_lines : list myline;
  num_points : Z;
  num_edges : Z }.

Definition num_all_lines (st : state) : Z := Z.of_nat (length (lines st)).

Definition initial_state : state := State [] [] [] [] [] 0 0.

Definition set_mypoints (v : list mypoint) (st : state) : state :=
  State v (x_points st) (y_points st) (lines st) (final_lines st)
        (num_points st) (num_edges st).
Definition set_y_points (v : list nat) (st : state) : state :=
  State (mypoints st) (x_points st) v (lines st) (final_lines st)
        (num_points st) (num_edges st).
Definition set_lines (v : list (option myline)) (st : state) : state :=
  State (mypoints st) (x_points st) (y_points st) v (final_lines st)
        (num_points st) (num_edges st).
Definition set_final_lines (v : list myline) (st : state) : state :=
  State (mypoints st) (x_points st) (y_points st) (lines st) v
        (num_points st) (num_edges st).
Definition set_num_edges (v : Z) (st : state) : state :=
  State (mypoints st) (x_points st) (y_points st) (lines st) (final_lines st)
        (num_points st) v.

Definition set_connections (c : list (option nat)) (pt : mypoint) : mypoint :=
  Point (id pt) (x pt) (y pt) c.

(** [*p] for a pointer [p] into [mypoints]. *)
Definition deref (st : state) (p : nat) : result mypoint :=
  valid (mypoints st !! p).

(** [mypoints[p] = pt]. *)
Definition store (p : nat) (pt : mypoint) (st : state) : state :=
  set_mypoints (<[p := pt]> (mypoints st)) st.

(** ** Floats *)

Definition Qltb (a b : Q) : bool := Qnum a * QDen b <? Qnum b * QDen a.

(** [((float)a + (float)b) / 2] *)
Definition midpoint (a b : Z) : Q := Qred ((inject_Z a + inject_Z b) / 2).

(** ** Reading an instance

    The content of an instance file: absent, empty, or a declared count
    followed by coordinate pairs. *)
Inductive file :=
| NoFile
| EmptyFile
| FileData (count : Z) (pairs : list (Z * Z)).

(** [read_file] stores the count in [num_points] and the first
    [MAX_POINTS] pairs in [mypoints], with [x_points[i]] and [y_points[i]]
    pointing to [mypoints[i]], then compares the number of pairs stored
    with the count. It leaves the [id] and [connections] of a point as they
    were; [link_points] sets both before anything reads them, and here
    they start as in a fresh process, 0 and NULL. *)
Definition read_file (f : file) (st : state) : File_Status * state :=
  match f with
  | NoFile => (FILE_NOT_EXISTS, st)
  | EmptyFile => (FILE_NO_POINTS, st)
  | FileData count pairs =>
      let pts := take MAX_POINTS pairs in
      let i := length pts in
      let st' :=
        State ((λ p, Point 0 p.1 p.2 []) <$> pts) (seq 0 i) (seq 0 i)
              (lines st) (final_lines st) (wrap32 count) (num_edges st) in
      if decide (Z.of_nat i = wrap32 count)
      then (FILE_SUCCESS, st')
      else (FILE_ERROR_POINTS, st')
  end.

(** ** Sorting by y *)

(** The difference of the y-coordinates; it does not overflow an [int] on
    coordinates below 2^30 in magnitude. *)
Definition y_compare (a b : mypoint) : Z := y a - y b.

Fixpoint insert_by {A} (compar : A → A → Z) (a : A) (l : list A) : list A :=
  match l with
  | [] => [a]
  | b :: l' => if compar a b <=? 0 then a :: l else b :: insert_by compar a l'
  end.

(** [qsort] leaves the order of elements that compare equal unspecified;
    this model keeps them in their original order. The theorems below
    that depend on the y-order hold for every sorted arrangement. *)
Definition qsort {A} (compar : A → A → Z) (l : list A) : list A :=
  foldr (insert_by compar) [] l.

Definition compare_pointers (st : state) (a b : nat) : Z :=
  match mypoints st !! a, mypoints st !! b with
  | Some pa, Some pb => y_compare pa pb
  | _, _ => 0
  end.

(** ** The connectivity graph *)

Definition link_points (st : state) : result state :=
  let n := Z.to_nat (num_points st) in
  st' ← for_loop 0 n (λ i st,
      pt ← deref st i;
      let st := store i (Point i (x pt) (y pt) []) st in
      for_loop 0 n (λ j st,
          pt ← deref st i;
          if decide (MAX_POINTS ≤ j)%nat then Fault
          else if decide (i = j)
          then Ok (store i (set_connections (connections pt ++ [None]) pt) st)
          else Ok (set_num_edges (wrap32 (num_edges st + 1))
                     (store i (set_connections (connections pt ++ [Some j]) pt) st)))
        st) st;
  if decide (num_edges st' = wrap32 (num_points st' * wrap32 (num_points st' - 1)))
  then Ok st'
  else Exit.

Definition unlink_points (pt1 pt2 : nat) (st : state) : result state :=
  p1 ← deref st pt1;
  p2 ← deref st pt2;
  c ← valid (connections p1 !! id p2);
  match c with
  | None => Ok st
  | Some _ =>
      let st := store pt1 (set_connections (<[id p2 := None]> (connections p1)) p1) st in
      p2 ← deref st pt2;
      p1 ← deref st pt1;
      _ ← valid (connections p2 !! id p1);
      let st := store pt2 (set_connections (<[id p1 := None]> (connections p2)) p2) st in
      Ok (set_num_edges (wrap32 (num_edges st - 2)) st)
  end.

Definition restore (st : state) : state :=
  State (mypoints st) (x_points st) (y_points st) [] [] 0 0.

(** ** Scoring *)

Definition axis_points (st : state) (a : Axis) : list nat :=
  match a with
  | V => x_points st
  | H => y_points st
  end.

Definition axis_coord (a : Axis) (pt : mypoint) : Z :=
  match a with
  | V => x pt
  | H => y pt
  end.

Fixpoint closest_point_from (st : state) (ln : myline) (count i : nat) : result Z :=
  match count with
  | O => Ok (-1)
  | S count' =>
      p ← valid (axis_points st (axis ln) !! i);
      pt ← deref st p;
      if Qltb (coord ln) (inject_Z (axis_coord (axis ln) pt))
      then Ok (Z.of_nat i - 1)
      else closest_point_from st ln count' (S i)
  end.

Definition closest_point (st : state) (ln : myline) : result Z :=
  closest_point_from st ln (Z.to_nat (num_points st)) 0.

(** The pairs [(i, j)] of the loops
    [for (i = 0; i <= closest; i++) for (j = closest + 1; j < num_points; j++)]. *)
Definition for_split {S} (st : state) (closest : Z)
    (body : nat → nat → S → result S) (s : S) : result S :=
  let lo := Z.to_nat (closest + 1) in
  for_loop 0 lo (λ i s,
    for_loop lo (Z.to_nat (num_points st) - lo) (λ j s, body i j s) s) s.

Definition links_to_break (st : state) (ln : option myline) : result Z :=
  match ln with
  | None => Ok 0
  | Some ln =>
      let pt := axis_points st (axis ln) in
      closest ← closest_point st ln;
      for_split st closest (λ i j num_links,
          pi ← valid (pt !! i); a ← deref st pi;
          pj ← valid (pt !! j); b ← deref st pj;
          row ← deref st (id a);
          c ← valid (connections row !! id b);
          Ok (if c is Some _ then num_links + 1 else num_links)) 0
  end.

(** ** Candidate generation *)

Definition add_line (ln : myline) (st : state) : result state :=
  if decide (2 * MAX_POINTS ≤ length (lines st))%nat then Fault
  else Ok (set_lines (lines st ++ [Some ln]) st).

Definition pre_separate (st : state) : result state :=
  let bound := Z.to_nat (wrap32 (num_points st - 1)) in
  st ← for_loop 0 bound (λ i st,
      p ← valid (x_points st !! i); a ← deref st p;
      q ← valid (x_points st !! S i); b ← deref st q;
      add_line (Line V (midpoint (x a) (x b))) st) st;
  for_loop 0 bound (λ i st,
      p ← valid (y_points st !! i); a ← deref st p;
      q ← valid (y_points st !! S i); b ← deref st q;
      add_line (Line H (midpoint (y a) (y b))) st) st.

(** ** Commit *)

Definition finalize_lines (ln : option myline) (st : state) : result state :=
  match ln with
  | None => Ok st
  | Some ln =>
      if decide (MAX_POINTS ≤ length (final_lines st))%nat then Fault
      else
        let pt := axis_points st (axis ln) in
        closest ← closest_point st ln;
        st' ← for_split st closest (λ i j st,
            pi ← valid (pt !! i);
            pj ← valid (pt !! j);
            unlink_points pi pj st) st;
        Ok (set_final_lines (final_lines st' ++ [ln]) st')
  end.

(** ** The greedy loop of [main] *)

(** [lines[j]]: a slot that was never written holds NULL. *)
Definition line_at (st : state) (j : nat) : option myline :=
  mjoin (lines st !! j).

(** The scan for the line that breaks the most links: the index of the
    best line and its score. *)
Definition best_line (st : state) : result (nat * Z) :=
  num_link ← links_to_break st (line_at st 0);
  for_loop 1 (length (lines st) - 1) (λ j best,
      temp ← links_to_break st (line_at st j);
      Ok (if best.2 <? temp then (j, temp) else best)) (0%nat, num_link).

(** One turn of [while (num_edges > 0)]. *)
Definition commit_best (st : state) : result state :=
  best ← best_line st;
  st' ← finalize_lines (line_at st best.1) st;
  Ok (set_lines (<[best.1 := None]> (lines st')) st').

(** [while (num_edges > 0)], for at most [fuel] turns. *)
Fixpoint greedy_loop (fuel : nat) (st : state) : result state :=
  if decide (num_edges st > 0) then
    match fuel with
    | O => OutOfFuel
    | S fuel' => st' ← commit_best st; greedy_loop fuel' st'
    end
  else Ok st.

(** The call of [qsort] on [y_points] with [y_compare]. *)
Definition sort_y_points (st : state) : state :=
  set_y_points (qsort (compare_pointers st) (y_points st)) st.

(** What [main] does with one instance once [read_file] succeeded. *)
Definition separate (fuel : nat) (st : state) : result state :=
  let st := sort_y_points st in
  st ← link_points st;
  st ← pre_separate st;
  greedy_loop fuel st.

(** [main]: the instances in file order; the result is what [write_file]
    wrote, one solution per processed instance. *)
Fixpoint main_from (fuel : nat) (file_index : nat) (files : list file)
    (st : state) (written : list (nat * list myline))
    : result (list (nat * list myline)) :=
  match files with
  | [] => Ok written
  | f :: files' =>
      let (status, st) := read_file f st in
      match status with
      | FILE_SUCCESS =>
          st ← separate fuel st;
          main_from fuel (S file_index) files' (restore st)
                    (written ++ [(file_index, final_lines st)])
      | _ => main_from fuel (S file_index) files' st written
      end
  end.

Definition main (fuel : nat) (files : list file) : result (list (nat * list myline)) :=
  main_from fuel 1 (take (MAX_POINTS - 1) files) initial_state [].

(** ** Specification vocabulary *)

(** The test [connections[b] != NULL] on point [a]. *)
Definition linked (st : state) (a b : nat) : bool :=
  match mypoints st !! a with
  | Some pa =>
      match connections pa !! b with
      | Some (Some _) => true
      | _ => false
      end
  | None => false
  end.

(** The number of non-NULL connection entries. *)
Definition active_in (row : list (option nat)) : nat :=
  sum_list_with (λ c : option nat, if c is Some _ then 1%nat else 0%nat) row.

Definition active_count (st : state) : nat :=
  sum_list_with (λ pt, active_in (connections pt)) (mypoints st).

(** The invariant of the connectivity graph. *)
Record graph_ok (st : state) : Prop := GraphOk {
  graph_size : num_points st = Z.of_nat (length (mypoints st));
  graph_rows : ∀ k pt, mypoints st !! k = Some pt →
    id pt = k ∧ length (connections pt) = length (mypoints st);
  graph_irrefl : ∀ a, linked st a a = false;
  graph_sym : ∀ a b, linked st a b = linked st b a;
  graph_count : num_edges st = Z.of_nat (active_count st);
  graph_bound : num_edges st < 2 ^ 32;
  graph_even : Z.even (num_edges st) = true }.

(** What no operation of the engine changes once an instance is loaded. *)
Definition geometry (st : state) : list (Z * Z) :=
  (λ pt, (x pt, y pt)) <$> mypoints st.

Record same_instance (st st' : state) : Prop := SameInstance {
  same_geometry : geometry st' = geometry st;
  same_x_points : x_points st' = x_points st;
  same_y_points : y_points st' = y_points st;
  same_num_points : num_points st' = num_points st }.

(** The coordinate of point [p] along an axis. *)
Definition point_coord (st : state) (a : Axis) (p : nat) : Z :=
  from_option (axis_coord a) 0 (mypoints st !! p).

(** The coordinate of the point at position [i] of the order of an axis. *)
Definition sorted_coord (st : state) (a : Axis) (i : nat) : Z :=
  from_option (point_coord st a) 0 (axis_points st a !! i).

(** The test [coord > ln->coord] of [closest_point] on point [p]. *)
Definition beyond (st : state) (ln : myline) (p : nat) : bool :=
  Qltb (coord ln) (inject_Z (point_coord st (axis ln) p)).

(** Point [a] is on the low side of the line and point [b] beyond it. *)
Definition cuts (st : state) (ln : myline) (a b : nat) : bool :=
  negb (beyond st ln a) && beyond st ln b.

(** The engine's preconditions on a loaded instance: between 1 and
    [MAX_POINTS] points, pairwise distinct, with both orders sorted. *)
Definition instance_ok (st : state) : Prop :=
  num_points st = Z.of_nat (length (mypoints st)) ∧
  (1 ≤ length (mypoints st) ≤ MAX_POINTS)%nat ∧
  x_points st ≡ₚ seq 0 (length (mypoints st)) ∧
  y_points st ≡ₚ seq 0 (length (mypoints st)) ∧
  StronglySorted Z.le (point_coord st V <$> x_points st) ∧
  StronglySorted Z.le (point_coord st H <$> y_points st) ∧
  NoDup (geometry st).

(** The index pairs visited by [for_split]. *)
Definition split_pairs (n : nat) (closest : Z) : list (nat * nat) :=
  let lo := Z.to_nat (closest + 1) in
  i ← seq 0 lo; (λ j, (i, j)) <$> seq lo (n - lo).

(** The lines [pre_separate] generates. *)
Definition candidate (st : state) (a : Axis) (i : nat) : myline :=
  Line a (midpoint (sorted_coord st a i) (sorted_coord st a (S i))).

Definition candidates (st : state) : list (option myline) :=
  ((λ i, Some (candidate st V i)) <$> seq 0 (length (mypoints st) - 1)) ++
  ((λ i, Some (candidate st H i)) <$> seq 0 (length (mypoints st) - 1)).

(** The complete graph [link_points] builds. *)
Definition full_row (n i : nat) : list (option nat) :=
  (λ j, if decide (i = j) then None else Some j) <$> seq 0 n.

Definition linked_rows (st : state) : list mypoint :=
  imap (λ k pt, Point k (x pt) (y pt) (full_row (length (mypoints st)) k))
       (mypoints st).

(** The state [link_points] leaves when its consistency check passes. *)
Definition complete_graph (st : state) : state :=
  State (linked_rows st) (x_points st) (y_points st) (lines st) (final_lines st)
        (num_points st)
        (Z.of_nat (length (mypoints st)) * (Z.of_nat (length (mypoints st)) - 1)).

(** The state [pre_separate] leaves. *)
Definition with_candidates (st : state) : state :=
  set_lines (lines st ++ candidates st) st.

(** The number of candidates not yet consumed. *)
Definition live (st : state) : nat :=
  sum_list_with (λ l : option myline, if l is Some _ then 1%nat else 0%nat) (lines st).

(** Every active link is cut by a candidate that is still live. *)
Definition covered (st : state) : Prop :=
  ∀ a b, linked st a b = true →
    ∃ j ln, lines st !! j = Some (Some ln) ∧
            cuts st ln a b || cuts st ln b a = true.

(** The active links form disjoint cliques: the cells of the committed lines. *)
Definition cliques (st : state) : Prop :=
  ∀ a b c, linked st a b = true → linked st b c = true → a ≠ c →
    linked st a c = true.

(** A point is the root of its cell when no earlier point is linked to it. *)
Definition is_root (st : state) (p : nat) : bool :=
  forallb (λ q, negb (linked st q p)) (seq 0 p).

Definition roots (st : state) : nat :=
  sum_list_with (λ p, if is_root st p then 1%nat else 0%nat)
                (seq 0 (length (mypoints st))).

(** The invariant of the greedy loop. *)
Record loop_ok (st : state) : Prop := LoopOk {
  loop_instance : instance_ok st;
  loop_graph : graph_ok st;
  loop_covered : covered st;
  loop_cliques : cliques st;
  loop_roots : (length (final_lines st) < roots st)%nat }.

(** [k] turns of the loop body, whatever the guard says. *)
Fixpoint commits (k : nat) (st : state) : result state :=
  match k with
  | O => Ok st
  | S k' => st' ← commit_best st; commits k' st'
  end.

(** The pairs of points a split visits. *)
Definition visited (pts : list nat) (done : list (nat * nat)) (a b : nat) : Prop :=
  ∃ i j, (i, j) ∈ done ∧
    (pts !! i = Some a ∧ pts !! j = Some b ∨ pts !! i = Some b ∧ pts !! j = Some a).

(** The loop guard holds and the body runs: one turn of the greedy loop. *)
Inductive loop_step : state → state → Prop :=
| LoopStep st st' :
    num_edges st > 0 → commit_best st = Ok st' → loop_step st st'.

(** No slot of the pool has a positive score. *)
Definition exhausted (st : state) : Prop :=
  ∀ j, links_to_break st (line_at st j) = Ok 0.

(** The operations that change the graph after [link_points]. *)
Inductive graph_op :=
| Unlink (pt1 pt2 : nat)
| Finalize (ln : option myline).

Definition run_op (op : graph_op) (st : state) : result state :=
  match op with
  | Unlink pt1 pt2 => unlink_points pt1 pt2 st
  | Finalize ln => finalize_lines ln st
  end.

#[global] Instance instance_ok_dec st : Decision (instance_ok st).
Proof. unfold instance_ok. apply _. Defined.

(** ** Instances used below *)

(** An instance as [main] holds it after [read_file] and [qsort]. *)
Definition load (f : file) : state :=
  sort_y_points (read_file f initial_state).2.

Definition two_points : file := FileData 2 [(0, 0); (2, 2)].

Definition three_points : file := FileData 3 [(0, 0); (2, 0); (4, 4)].

(** Two points on one vertical line. *)
Definition column_points : file := FileData 2 [(0, 0); (0, 1)].

(** The same point twice. *)
Definition twin_points : file := FileData 2 [(0, 0); (0, 0)].

(** A declared count of 0 and no coordinates. *)
Definition no_points : file := FileData 0 [].

(** The state in which the greedy loop starts on a loaded instance. *)
Definition start (f : file) : state := with_candidates (complete_graph (load f)).

(** A link counter left over from an earlier run. *)
Definition stale_count : state := set_num_edges 2 initial_state.

(** The two points (0,0) and (2,2) once the line x = 1.0 is committed. *)
Definition separated_pair : state :=
  State [Point 0 0 0 [None; None]; Point 1 2 2 [None; None]]
        [0%nat; 1%nat] [0%nat; 1%nat] [] [Line V 1] 2 0.

(** The three points once the line x = 1.0 is committed. *)
Definition after_first_commit : state :=
  State [Point 0 0 0 [None; None; None];
         Point 1 2 0 [None; None; Some 2%nat];
         Point 2 4 4 [None; Some 1%nat; None]]
        [0%nat; 1%nat; 2%nat] [0%nat; 1%nat; 2%nat]
        [None; Some (Line V 3); Some (Line H 0); Some (Line H 2)]
        [Line V 1] 3 2.

(** ** Vocabulary of the further properties *)

(** All ordered pairs of point indices. *)
Definition all_pairs (n : nat) : list (nat * nat) :=
  a ← seq 0 n; (λ b, (a, b)) <$> seq 0 n.

(** The cut score of a line: the number of active links with one end on the
    low side of the line and the other end beyond it. *)
Definition cut_links (st : state) (ln : myline) : nat :=
  sum_list_with
    (λ p : nat * nat,
       if linked st p.1 p.2 && cuts st ln p.1 p.2 then 1%nat else 0%nat)
    (all_pairs (length (mypoints st))).

(** The point at a position of an order. *)
Definition point_at (pts : list nat) (i : nat) : nat := default 0%nat (pts !! i).

(** The line has exactly one of the two points beyond it. *)
Definition separates (st : state) (ln : myline) (a b : nat) : bool :=
  cuts st ln a b || cuts st ln b a.

(** The active links are the cells of the committed lines: two distinct
    points are linked exactly when no committed line separates them. *)
Definition cells (st : state) : Prop :=
  ∀ a b, (a < length (mypoints st))%nat → (b < length (mypoints st))%nat → a ≠ b →
    (linked st a b = true ↔
     ∀ ln, ln ∈ final_lines st → separates st ln a b = false).

(** What a run of the greedy loop from [st0] keeps true. *)
Record run_ok (st0 st : state) : Prop := RunOk {
  run_loop : loop_ok st;
  run_same : same_instance st0 st;
  run_cells : cells st;
  run_nodup : NoDup (final_lines st);
  run_pool : ∀ j ln, lines st !! j = Some (Some ln) → Some ln ∈ lines st0;
  run_final : ∀ ln, ln ∈ final_lines st → Some ln ∈ lines st0;
  run_fresh : ∀ i ln, final_lines st !! i = Some ln →
    ∃ a b, (a < length (mypoints st0))%nat ∧ (b < length (mypoints st0))%nat ∧
      separates st0 ln a b = true ∧
      ∀ l, l ∈ take i (final_lines st) → separates st0 l a b = false }.

(** [st] is a state the greedy loop of [main] reaches on the loaded
    instance [st0]. *)
Definition loop_state (st0 st : state) : Prop :=
  instance_ok st0 ∧ num_edges st0 = 0 ∧ lines st0 = [] ∧ final_lines st0 = [] ∧
  ∃ st1 st2, link_points st0 = Ok st1 ∧ pre_separate st1 = Ok st2 ∧
    rtc loop_step st2 st.










(** ** Lemmas *)

Lemma bind_Ok {A B} (r : result A) (f : A → result B) b :
  r ≫= f = Ok b → ∃ a, r = Ok a ∧ f a = Ok b.
Proof. destruct r; simpl; intros; try discriminate. eauto. Qed.

Lemma valid_Ok {A} (o : option A) a : valid o = Ok a ↔ o = Some a.
Proof. destruct o; simpl; split; intros; congruence. Qed.

Lemma mbind_Ok {A B} (a : A) (f : A → result B) : Ok a ≫= f = f a.
Proof. done. Qed.

Lemma greedy_loop_turn fuel st :
  num_edges st > 0 → greedy_loop (S fuel) st = commit_best st ≫= greedy_loop fuel.
Proof. intros Hpos. simpl. by rewrite decide_True. Qed.

Lemma greedy_loop_exit fuel st :
  num_edges st = 0 → greedy_loop fuel st = Ok st.
Proof. intros Hz. destruct fuel; simpl; rewrite decide_False; (done || lia). Qed.

Lemma foldM_app {A S} (body : A → S → result S) l1 l2 s :
  foldM body (l1 ++ l2) s = foldM body l1 s ≫= foldM body l2.
Proof.
  revert s. induction l1 as [|a l1 IH]; intros s; simpl; [done|].
  destruct (body a s); simpl; auto.
Qed.

Lemma sum_list_with_insert {A} (f : A → nat) (l : list A) i a b :
  l !! i = Some a →
  (sum_list_with f (<[i := b]> l) + f a = sum_list_with f l + f b)%nat.
Proof.
  revert i. induction l as [|c l IH]; intros [|i] Hi; simplify_eq/=; [lia|].
  specialize (IH _ Hi). lia.
Qed.

Lemma linked_store st p pt c d :
  linked (store p pt st) c d =
  if decide (c = p ∧ p < length (mypoints st))%nat
  then match connections pt !! d with Some (Some _) => true | _ => false end
  else linked st c d.
Proof.
  unfold linked, store; simpl.
  destruct (decide _) as [[-> Hlt]|Hn].
  - by rewrite list_lookup_insert_eq.
  - destruct (decide (c = p)) as [->|Hne].
    + rewrite list_insert_ge by lia.
      rewrite (lookup_ge_None_2 (mypoints st) p) by lia. done.
    + by rewrite list_lookup_insert_ne.
Qed.

Lemma geometry_store st p pt q :
  mypoints st !! p = Some q → x pt = x q → y pt = y q →
  geometry (store p pt st) = geometry st.
Proof.
  intros Hp Hx Hy. unfold geometry, store; simpl.
  rewrite list_fmap_insert. apply list_insert_id.
  rewrite list_lookup_fmap, Hp. simpl. by rewrite Hx, Hy.
Qed.

Lemma active_count_store st p pt q :
  mypoints st !! p = Some q →
  (active_count (store p pt st) + active_in (connections q)
   = active_count st + active_in (connections pt))%nat.
Proof.
  intros Hp. unfold active_count, store; simpl.
  by apply (sum_list_with_insert (λ pt, active_in (connections pt))).
Qed.

Lemma active_in_clear row k c :
  row !! k = Some (Some c) →
  (active_in (<[k := None]> row) + 1 = active_in row)%nat.
Proof.
  intros Hk. unfold active_in.
  pose proof (sum_list_with_insert
    (λ c : option nat, if c is Some _ then 1%nat else 0%nat) row k _ None Hk).
  simpl in *. lia.
Qed.

Lemma linked_Some st a b :
  linked st a b = true ↔
  ∃ pa c, mypoints st !! a = Some pa ∧ connections pa !! b = Some (Some c).
Proof.
  unfold linked. split.
  - destruct (mypoints st !! a) as [pa|] eqn:Ea; [|done].
    destruct (connections pa !! b) as [[c|]|] eqn:Eb; try done. eauto.
  - intros (pa & c & -> & ->). done.
Qed.

Lemma unlink_points_spec st a b :
  graph_ok st → (a < length (mypoints st))%nat → (b < length (mypoints st))%nat →
  ∃ st', unlink_points a b st = Ok st' ∧ graph_ok st' ∧ same_instance st st' ∧
    lines st' = lines st ∧ final_lines st' = final_lines st ∧
    length (mypoints st') = length (mypoints st) ∧
    (∀ c d, linked st' c d =
       linked st c d && negb (bool_decide ((c = a ∧ d = b) ∨ (c = b ∧ d = a)))) ∧
    num_edges st' = num_edges st - (if linked st a b then 2 else 0).
Proof.
  intros Hg Ha Hb.
  destruct (lookup_lt_is_Some_2 _ _ Ha) as [p1 Hp1].
  destruct (lookup_lt_is_Some_2 _ _ Hb) as [p2 Hp2].
  destruct (graph_rows _ Hg _ _ Hp1) as [Hid1 Hlen1].
  destruct (graph_rows _ Hg _ _ Hp2) as [Hid2 Hlen2].
  destruct (lookup_lt_is_Some_2 (connections p1) b) as [c Hc]; [lia|].
  unfold unlink_points, deref. rewrite Hp1, Hp2. simpl. rewrite Hid2, Hc. simpl.
  assert (Hab : linked st a b = if c is Some _ then true else false).
  { unfold linked. rewrite Hp1, Hc. by destruct c. }
  destruct c as [c|]; simpl in Hab.
  - (* the link is active *)
    assert (Hne : a ≠ b).
    { intros ->. rewrite (graph_irrefl _ Hg) in Hab. discriminate. }
    assert (Hba : linked st b a = true) by (by rewrite (graph_sym _ Hg)).
    apply linked_Some in Hba as (p2' & c' & Hp2' & Hc'). simplify_eq.
    rewrite (list_lookup_insert_ne (mypoints st) (id p1) (id p2)) by done.
    rewrite Hp2. simpl.
    rewrite (list_lookup_insert_eq (mypoints st) (id p1)) by done.
    simpl. rewrite Hc'. simpl.
    set (q1 := set_connections (<[id p2:=None]> (connections p1)) p1).
    set (q2 := set_connections (<[id p1:=None]> (connections p2)) p2).
    set (st1 := store (id p1) q1 st).
    set (st2 := store (id p2) q2 st1).
    assert (Hst1 : mypoints st1 !! id p2 = Some p2).
    { unfold st1, store; simpl. by rewrite list_lookup_insert_ne. }
    assert (Hlen : length (mypoints st2) = length (mypoints st)).
    { unfold st2, st1, store; simpl. by rewrite !length_insert. }
    assert (Hlk : ∀ c d, linked st2 c d =
       linked st c d && negb (bool_decide ((c = id p1 ∧ d = id p2) ∨ (c = id p2 ∧ d = id p1)))).
    { intros c0 d. unfold st2. rewrite linked_store.
      assert (length (mypoints st1) = length (mypoints st)) as ->
        by (unfold st1, store; simpl; by rewrite length_insert).
      destruct (decide (c0 = id p2 ∧ _)) as [[-> _]|Hn1].
      - simpl. destruct (decide (d = id p1)) as [->|Hd].
        + rewrite list_lookup_insert_eq by lia.
          rewrite bool_decide_eq_true_2 by auto. by rewrite andb_false_r.
        + rewrite list_lookup_insert_ne by done.
          rewrite bool_decide_eq_false_2 by intuition congruence.
          rewrite andb_true_r. unfold linked. by rewrite Hp2.
      - unfold st1. rewrite linked_store.
        destruct (decide (c0 = id p1 ∧ _)) as [[-> _]|Hn2].
        + simpl. destruct (decide (d = id p2)) as [->|Hd].
          * rewrite list_lookup_insert_eq by lia.
            rewrite bool_decide_eq_true_2 by auto. by rewrite andb_false_r.
          * rewrite list_lookup_insert_ne by done.
            rewrite bool_decide_eq_false_2 by intuition congruence.
            rewrite andb_true_r. unfold linked. by rewrite Hp1.
        + rewrite bool_decide_eq_false_2 by intuition congruence.
          by rewrite andb_true_r. }
    assert (Hcnt : (active_count st2 + 2 = active_count st)%nat).
    { pose proof (active_count_store st1 (id p2) q2 p2 Hst1) as H2.
      pose proof (active_count_store st (id p1) q1 p1 Hp1) as H1.
      fold st1 in H1. fold st2 in H2.
      pose proof (active_in_clear _ _ _ Hc) as E1.
      pose proof (active_in_clear _ _ _ Hc') as E2.
      simpl in H1, H2. lia. }
    pose proof (graph_count _ Hg) as Hce. pose proof (graph_bound _ Hg) as Hbd.
    assert (Hw : wrap32 (num_edges st2 - 2) = num_edges st - 2).
    { unfold wrap32. change (num_edges st2) with (num_edges st).
      apply Z.mod_small. lia. }
    assert (Hmp : ∀ e, mypoints (set_num_edges e st2) = mypoints st2) by done.
    eexists. split; [reflexivity|]. rewrite Hab.
    split; [|split; [|repeat split]]; try done.
    + constructor.
      * change (num_points st = Z.of_nat (length (mypoints st2))).
        rewrite Hlen. apply (graph_size _ Hg).
      * intros k pt Hk. rewrite Hmp, Hlen. rewrite Hmp in Hk.
        unfold st2, st1, store in Hk; simpl in Hk.
        destruct (decide (k = id p2)) as [->|Hk2].
        { rewrite list_lookup_insert_eq in Hk
            by (rewrite length_insert; lia).
          simplify_eq. simpl. by rewrite length_insert. }
        rewrite list_lookup_insert_ne in Hk by done.
        destruct (decide (k = id p1)) as [->|Hk1].
        { rewrite list_lookup_insert_eq in Hk by lia.
          simplify_eq. simpl. by rewrite length_insert. }
        rewrite list_lookup_insert_ne in Hk by done.
        by apply (graph_rows _ Hg).
      * intros a0. change (linked st2 a0 a0 = false).
        rewrite Hlk, (graph_irrefl _ Hg). done.
      * intros a0 b0. change (linked st2 a0 b0 = linked st2 b0 a0).
        rewrite !Hlk, (graph_sym _ Hg a0 b0). f_equal. f_equal.
        apply bool_decide_ext. intuition congruence.
      * change (wrap32 (num_edges st2 - 2) = Z.of_nat (active_count st2)).
        rewrite Hw. lia.
      * change (wrap32 (num_edges st2 - 2) < 2 ^ 32). rewrite Hw. lia.
      * change (Z.even (wrap32 (num_edges st2 - 2)) = true).
        rewrite Hw. rewrite Z.even_sub. rewrite (graph_even _ Hg). done.
    + constructor; try done.
      change (geometry st2 = geometry st).
      unfold st2, st1. erewrite geometry_store; [|exact Hst1|done..].
      by erewrite geometry_store.
  - (* already unlinked *)
    eexists. split; [reflexivity|]. rewrite Hab.
    split; [done|]. split; [by constructor|]. repeat split; try done; [|lia].
    intros c d. destruct (bool_decide _) eqn:E; simpl; [|by rewrite andb_true_r].
    apply bool_decide_eq_true_1 in E as [[-> ->]|[-> ->]].
    + by rewrite Hab.
    + by rewrite (graph_sym _ Hg), Hab.
Qed.

(** Loops *)

Lemma foldM_invariant {A S} (P : list A → S → Prop) (body : A → S → result S) l s :
  P [] s →
  (∀ done a s, P done s → a ∈ l →
     ∃ s', body a s = Ok s' ∧ P (done ++ [a]) s') →
  ∃ s', foldM body l s = Ok s' ∧ P l s'.
Proof.
  intros H0 Hstep.
  cut (∀ done, P done s → ∃ s', foldM body l s = Ok s' ∧ P (done ++ l) s').
  { intros Hc. apply (Hc []). done. }
  clear H0. revert s Hstep.
  induction l as [|a l IH]; intros s Hstep done Hd; simpl.
  - exists s. by rewrite app_nil_r.
  - destruct (Hstep done a s Hd) as (s1 & E1 & H1); [left|].
    rewrite E1. simpl.
    destruct (IH s1) with (done := done ++ [a]) as (s' & E & H'); [|done|].
    + intros d b s2 ??. apply Hstep; [done|by right].
    + exists s'. split; [done|]. by rewrite <- app_assoc in H'.
Qed.

Lemma foldM_Ok_inv {A S} (P : list A → S → Prop) (body : A → S → result S) l s s' :
  foldM body l s = Ok s' →
  P [] s →
  (∀ done a s s', P done s → a ∈ l → body a s = Ok s' → P (done ++ [a]) s') →
  P l s'.
Proof.
  intros Hrun H0 Hstep.
  cut (∀ done, P done s → P (done ++ l) s').
  { intros Hc. apply (Hc []). done. }
  clear H0. revert s Hrun Hstep.
  induction l as [|a l IH]; intros s Hrun Hstep done Hd; simpl in *.
  - simplify_eq. by rewrite app_nil_r.
  - apply bind_Ok in Hrun as (s1 & E1 & Hrun).
    rewrite (assoc_L _ done [a] l : done ++ a :: l = (done ++ [a]) ++ l).
    apply (IH s1); [done| |].
    + intros d b s2 s3 ???. eapply Hstep; [done|by right|done].
    + eapply Hstep; [done|left|done].
Qed.

Lemma foldM_ext {A S} (f g : A → S → result S) l s :
  (∀ a s, a ∈ l → f a s = g a s) → foldM f l s = foldM g l s.
Proof.
  revert s. induction l as [|a l IH]; intros s Hfg; simpl; [done|].
  rewrite Hfg by left. destruct (g a s); simpl; try done.
  apply IH. intros ???. apply Hfg. by right.
Qed.

Lemma foldM_fmap {A B S} (h : A → B) (f : B → S → result S) l s :
  foldM f (h <$> l) s = foldM (λ a, f (h a)) l s.
Proof.
  revert s. induction l as [|a l IH]; intros s; simpl; [done|].
  destruct (f (h a) s); simpl; auto.
Qed.

Lemma foldM_bind {A B S} (k : A → list B) (f : B → S → result S) l s :
  foldM f (l ≫= k) s = foldM (λ a, foldM f (k a)) l s.
Proof.
  revert s. induction l as [|a l IH]; intros s; simpl; [done|].
  rewrite foldM_app. destruct (foldM f (k a) s); simpl; auto.
Qed.

Lemma for_split_pairs {S} st closest (body : nat → nat → S → result S) s :
  for_split st closest body s =
  foldM (λ p, body p.1 p.2) (split_pairs (Z.to_nat (num_points st)) closest) s.
Proof.
  unfold for_split, for_loop, split_pairs.
  rewrite foldM_bind. apply foldM_ext. intros i s' _.
  by rewrite foldM_fmap.
Qed.

Lemma elem_of_split_pairs n closest i j :
  (i, j) ∈ split_pairs n closest ↔
  (i < Z.to_nat (closest + 1) ∧ Z.to_nat (closest + 1) ≤ j < n)%nat.
Proof.
  unfold split_pairs. rewrite list_elem_of_bind. split.
  - intros (i' & Hj & Hi). apply list_elem_of_fmap in Hj as (j' & ? & Hj).
    simplify_eq. apply elem_of_seq in Hi, Hj. lia.
  - intros [Hi Hj]. exists i. split.
    + apply list_elem_of_fmap. exists j. split; [done|]. apply elem_of_seq. lia.
    + apply elem_of_seq. lia.
Qed.

Lemma for_loop_explicit {T} (F : nat → T) (body : nat → T → result T) from count :
  (∀ i, (from ≤ i < from + count)%nat → body i (F i) = Ok (F (S i))) →
  for_loop from count body (F from) = Ok (F (from + count)%nat).
Proof.
  unfold for_loop. revert from.
  induction count as [|count IH]; intros from Hstep; simpl.
  - by rewrite Nat.add_0_r.
  - rewrite Hstep by lia. simpl. rewrite IH.
    + f_equal. f_equal. lia.
    + intros i ?. apply Hstep. lia.
Qed.

(** Floats *)

Lemma Qltb_lt a b : Qltb a b = true ↔ (a < b)%Q.
Proof. unfold Qltb, Qlt. apply Z.ltb_lt. Qed.

Lemma Qltb_inject_mono q z z' :
  z ≤ z' → Qltb q (inject_Z z) = true → Qltb q (inject_Z z') = true.
Proof.
  rewrite !Qltb_lt. intros Hz Hq.
  eapply Qlt_le_trans; [exact Hq|]. by rewrite <- Zle_Qle.
Qed.

Lemma Qltb_midpoint a b c :
  Qltb (midpoint a b) (inject_Z c) = (a + b <? 2 * c).
Proof.
  apply eq_true_iff_eq. rewrite Qltb_lt, Z.ltb_lt.
  unfold midpoint. rewrite Qred_correct.
  unfold Qlt, Qdiv, Qmult, Qinv, Qplus, inject_Z. simpl. lia.
Qed.

(** Instances *)

Lemma instance_axis_perm st a :
  instance_ok st → axis_points st a ≡ₚ seq 0 (length (mypoints st)).
Proof. intros (_ & _ & Hx & Hy & _). by destruct a. Qed.

Lemma instance_axis_sorted st a :
  instance_ok st → StronglySorted Z.le (point_coord st a <$> axis_points st a).
Proof. intros (_ & _ & _ & _ & Hx & Hy & _). by destruct a. Qed.

Lemma instance_npoints st :
  instance_ok st → Z.to_nat (num_points st) = length (mypoints st).
Proof. intros (-> & _). lia. Qed.

Lemma instance_axis_length st a :
  instance_ok st → length (axis_points st a) = length (mypoints st).
Proof.
  intros Hok. rewrite (Permutation_length (instance_axis_perm st a Hok)).
  apply length_seq.
Qed.

Lemma instance_axis_lookup st a i p :
  instance_ok st → axis_points st a !! i = Some p →
  (p < length (mypoints st))%nat.
Proof.
  intros Hok Hi. apply list_elem_of_lookup_2 in Hi.
  rewrite (instance_axis_perm st a Hok) in Hi. apply elem_of_seq in Hi. lia.
Qed.

Lemma instance_axis_position st a p :
  instance_ok st → (p < length (mypoints st))%nat →
  ∃ i, axis_points st a !! i = Some p.
Proof.
  intros Hok Hp. apply list_elem_of_lookup.
  rewrite (instance_axis_perm st a Hok). apply elem_of_seq. lia.
Qed.

Lemma StronglySorted_lookup_le (l : list Z) i j a b :
  StronglySorted Z.le l → (i ≤ j)%nat → l !! i = Some a → l !! j = Some b → a ≤ b.
Proof.
  intros Hs. revert i j. induction Hs as [|c l Hs IH Hall]; intros i j Hij Hi Hj.
  - done.
  - destruct i as [|i], j as [|j]; simplify_eq/=; try lia.
    + rewrite Forall_forall in Hall. apply Hall.
      by eapply list_elem_of_lookup_2.
    + eapply IH; [|done..]. lia.
Qed.

Lemma instance_sorted_lookup st a i j p q :
  instance_ok st → (i ≤ j)%nat →
  axis_points st a !! i = Some p → axis_points st a !! j = Some q →
  point_coord st a p ≤ point_coord st a q.
Proof.
  intros Hok Hij Hi Hj.
  eapply (StronglySorted_lookup_le _ i j); [by apply instance_axis_sorted|done|..].
  - by rewrite list_lookup_fmap, Hi.
  - by rewrite list_lookup_fmap, Hj.
Qed.

Lemma beyond_mono st ln i j p q :
  instance_ok st → (i ≤ j)%nat →
  axis_points st (axis ln) !! i = Some p → axis_points st (axis ln) !! j = Some q →
  beyond st ln p = true → beyond st ln q = true.
Proof.
  intros Hok Hij Hi Hj. unfold beyond. apply Qltb_inject_mono.
  by eapply instance_sorted_lookup.
Qed.

Lemma deref_point_coord st a p pt :
  mypoints st !! p = Some pt → axis_coord a pt = point_coord st a p.
Proof. intros Hp. unfold point_coord. by rewrite Hp. Qed.

(** [closest_point] *)

Lemma closest_point_from_spec st ln count i :
  instance_ok st →
  (i + count = length (mypoints st))%nat →
  (∀ i' p, (i' < i)%nat → axis_points st (axis ln) !! i' = Some p →
     beyond st ln p = false) →
  ∃ c, closest_point_from st ln count i = Ok c ∧
    ((c = -1 ∧ ∀ j p, axis_points st (axis ln) !! j = Some p → beyond st ln p = false)
     ∨ (∃ k p, c = Z.of_nat k - 1 ∧ axis_points st (axis ln) !! k = Some p ∧
          beyond st ln p = true ∧
          ∀ i' p', (i' < k)%nat → axis_points st (axis ln) !! i' = Some p' →
            beyond st ln p' = false)).
Proof.
  intros Hok. revert i. induction count as [|count IH]; intros i Hn Hlow; simpl.
  - eexists. split; [done|]. left. split; [done|].
    intros j p Hj. apply (Hlow j); [|done].
    apply lookup_lt_Some in Hj. rewrite instance_axis_length in Hj by done. lia.
  - destruct (lookup_lt_is_Some_2 (axis_points st (axis ln)) i) as [p Hp].
    { rewrite instance_axis_length by done. lia. }
    rewrite Hp. simpl.
    destruct (lookup_lt_is_Some_2 (mypoints st) p) as [pt Hpt].
    { by eapply instance_axis_lookup. }
    unfold deref. rewrite Hpt. simpl.
    rewrite (deref_point_coord st _ p pt Hpt).
    destruct (Qltb _ _) eqn:Hb.
    + eexists. split; [done|]. right. by exists i, p.
    + apply IH; [lia|]. intros i' p' Hi' Hp'.
      destruct (decide (i' = i)) as [->|]; [by simplify_eq|].
      apply (Hlow i'); [lia|done].
Qed.

Lemma closest_point_spec st ln :
  instance_ok st →
  ∃ c, closest_point st ln = Ok c ∧ -1 ≤ c < Z.of_nat (length (mypoints st)) ∧
    ∀ i j p q,
      axis_points st (axis ln) !! i = Some p →
      axis_points st (axis ln) !! j = Some q →
      ((i, j) ∈ split_pairs (length (mypoints st)) c ↔ cuts st ln p q = true).
Proof.
  intros Hok. unfold closest_point. rewrite instance_npoints by done.
  destruct (closest_point_from_spec st ln (length (mypoints st)) 0 Hok)
    as (c & Hc & Hspec); [done|lia|].
  exists c. split; [done|].
  destruct Hspec as [[-> Hall]|(k & pk & -> & Hk & Hbk & Hlow)].
  - split; [lia|]. intros i j p q Hi Hj. rewrite elem_of_split_pairs.
    unfold cuts. rewrite (Hall _ _ Hi), (Hall _ _ Hj). simpl.
    split; [lia|done].
  - pose proof (lookup_lt_Some _ _ _ Hk) as Hkn.
    rewrite instance_axis_length in Hkn by done.
    split; [lia|]. intros i j p q Hi Hj. rewrite elem_of_split_pairs.
    replace (Z.to_nat (Z.of_nat k - 1 + 1)) with k by lia.
    pose proof (lookup_lt_Some _ _ _ Hj) as Hjn.
    rewrite instance_axis_length in Hjn by done.
    unfold cuts. rewrite andb_true_iff, negb_true_iff. split.
    + intros [Hik Hkj]. split; [by apply (Hlow i)|].
      apply (beyond_mono st ln k j pk q); [done|lia|done..].
    + intros [Hp Hq]. split; [|split; [|done]].
      * destruct (decide (i < k)%nat); [done|].
        rewrite (beyond_mono st ln k i pk p) in Hp; [done|done|lia|done..].
      * destruct (decide (k ≤ j)%nat); [done|].
        rewrite (Hlow j q) in Hq; [done|lia|done].
Qed.

(** Commit and score *)

Lemma linked_lt st a b :
  graph_ok st → linked st a b = true →
  (a < length (mypoints st) ∧ b < length (mypoints st))%nat.
Proof.
  intros Hg Hl. apply linked_Some in Hl as (pa & c & Ha & Hb).
  destruct (graph_rows _ Hg _ _ Ha) as [_ Hlen].
  apply lookup_lt_Some in Ha, Hb. lia.
Qed.

Lemma same_instance_refl st : same_instance st st.
Proof. by constructor. Qed.

Lemma same_instance_trans st1 st2 st3 :
  same_instance st1 st2 → same_instance st2 st3 → same_instance st1 st3.
Proof. intros [] []. constructor; congruence. Qed.

Lemma same_instance_length st st' :
  same_instance st st' → length (mypoints st') = length (mypoints st).
Proof.
  intros [Hgeo _ _ _]. unfold geometry in Hgeo.
  apply (f_equal length) in Hgeo. by rewrite !length_fmap in Hgeo.
Qed.

Lemma same_instance_point_coord st st' a p :
  same_instance st st' → point_coord st' a p = point_coord st a p.
Proof.
  intros [Hgeo _ _ _]. unfold geometry in Hgeo.
  apply (f_equal (.!! p)) in Hgeo. rewrite !list_lookup_fmap in Hgeo.
  unfold point_coord.
  destruct (mypoints st' !! p) as [pt'|], (mypoints st !! p) as [pt|];
    simplify_eq/=; [|done]. by destruct a.
Qed.

Lemma same_instance_axis_points st st' a :
  same_instance st st' → axis_points st' a = axis_points st a.
Proof. intros [_ Hx Hy _]. by destruct a. Qed.

Lemma same_instance_beyond st st' ln p :
  same_instance st st' → beyond st' ln p = beyond st ln p.
Proof. intros Hs. unfold beyond. by rewrite (same_instance_point_coord st st'). Qed.

Lemma same_instance_cuts st st' ln a b :
  same_instance st st' → cuts st' ln a b = cuts st ln a b.
Proof. intros Hs. unfold cuts. by rewrite !(same_instance_beyond st st'). Qed.

Lemma same_instance_ok st st' :
  same_instance st st' → instance_ok st → instance_ok st'.
Proof.
  intros Hs (Hn & Hcap & Hx & Hy & Hsx & Hsy & Hnd).
  pose proof (same_instance_length _ _ Hs) as Hlen.
  pose proof (same_instance_axis_points _ _ V Hs) as HV.
  pose proof (same_instance_axis_points _ _ H Hs) as HH.
  simpl in HV, HH.
  destruct Hs as [Hgeo Hxp Hyp Hnp].
  unfold instance_ok. rewrite Hlen, Hnp, Hgeo, Hxp, Hyp.
  repeat split; try done; try lia.
  - erewrite list_fmap_ext; [exact Hsx|].
    intros. by apply same_instance_point_coord.
  - erewrite list_fmap_ext; [exact Hsy|].
    intros. by apply same_instance_point_coord.
Qed.

Lemma graph_ok_frame st st' :
  mypoints st' = mypoints st → num_points st' = num_points st →
  num_edges st' = num_edges st → graph_ok st → graph_ok st'.
Proof.
  intros Hm Hn He [H1 H2 H3 H4 H5 H6 H7].
  assert (∀ a b, linked st' a b = linked st a b) as Hl.
  { intros. unfold linked. by rewrite Hm. }
  constructor.
  - by rewrite Hn, Hm.
  - rewrite Hm. auto.
  - intros. by rewrite Hl.
  - intros. by rewrite !Hl.
  - rewrite He. unfold active_count. by rewrite Hm.
  - by rewrite He.
  - by rewrite He.
Qed.

Lemma visited_snoc pts done i j p q a b :
  pts !! i = Some p → pts !! j = Some q →
  visited pts (done ++ [(i, j)]) a b ↔
  visited pts done a b ∨ (a = p ∧ b = q) ∨ (a = q ∧ b = p).
Proof.
  intros Hi Hj. unfold visited. split.
  - intros (i' & j' & Hin & Hor). apply elem_of_app in Hin as [Hin|Hin].
    + left. eauto.
    + apply list_elem_of_singleton in Hin. simplify_eq. right.
      destruct Hor as [[??]|[??]]; simplify_eq; auto.
  - intros [(i' & j' & Hin & Hor)|Hor].
    + exists i', j'. split; [|done]. apply elem_of_app. auto.
    + exists i, j. split; [apply elem_of_app; right; by left|].
      destruct Hor as [[-> ->]|[-> ->]]; auto.
Qed.

Lemma visited_split st ln c a b :
  instance_ok st →
  (∀ i j p q,
      axis_points st (axis ln) !! i = Some p →
      axis_points st (axis ln) !! j = Some q →
      ((i, j) ∈ split_pairs (length (mypoints st)) c ↔ cuts st ln p q = true)) →
  (a < length (mypoints st))%nat → (b < length (mypoints st))%nat →
  visited (axis_points st (axis ln)) (split_pairs (length (mypoints st)) c) a b ↔
  cuts st ln a b || cuts st ln b a = true.
Proof.
  intros Hok Hc Ha Hb. rewrite orb_true_iff. split.
  - intros (i & j & Hin & [[Hi Hj]|[Hi Hj]]).
    + left. by apply (Hc i j).
    + right. by apply (Hc i j).
  - destruct (instance_axis_position st (axis ln) a Hok Ha) as [i Hi].
    destruct (instance_axis_position st (axis ln) b Hok Hb) as [j Hj].
    intros [Hab|Hba].
    + exists i, j. split; [by apply (Hc i j a b)|auto].
    + exists j, i. split; [by apply (Hc j i b a)|auto].
Qed.

Lemma finalize_lines_spec st ln :
  instance_ok st → graph_ok st → (length (final_lines st) < MAX_POINTS)%nat →
  ∃ st', finalize_lines (Some ln) st = Ok st' ∧ graph_ok st' ∧
    same_instance st st' ∧ lines st' = lines st ∧
    final_lines st' = final_lines st ++ [ln] ∧
    (∀ a b, linked st' a b =
       linked st a b && negb (cuts st ln a b || cuts st ln b a)) ∧
    num_edges st' ≤ num_edges st ∧
    (∀ a b, linked st a b = true → linked st' a b = false →
       num_edges st' < num_edges st).
Proof.
  intros Hok Hg Hcap. unfold finalize_lines.
  rewrite decide_False by lia.
  destruct (closest_point_spec st ln Hok) as (c & -> & Hrange & Hc). simpl.
  rewrite for_split_pairs, instance_npoints by done.
  set (pts := axis_points st (axis ln)).
  set (pairs := split_pairs (length (mypoints st)) c).
  destruct (foldM_invariant
    (λ done s, graph_ok s ∧ same_instance st s ∧ lines s = lines st ∧
       final_lines s = final_lines st ∧
       (∀ a b, linked s a b = true ↔ linked st a b = true ∧ ¬ visited pts done a b) ∧
       num_edges s ≤ num_edges st ∧
       (∀ a b, linked st a b = true → linked s a b = false →
          num_edges s < num_edges st))
    (λ p s, pi ← valid (pts !! p.1); pj ← valid (pts !! p.2); unlink_points pi pj s)
    pairs st) as (st1 & -> & Hg1 & Hs1 & Hl1 & Hf1 & Hlk1 & Hle1 & Hlt1).
  { split; [done|]. split; [apply same_instance_refl|].
    split; [done|]. split; [done|]. split; [|split].
    - intros a b. split; [|by intros [? _]].
      intros Hl. split; [done|]. intros (i & j & Hin & _).
      by apply elem_of_nil in Hin.
    - reflexivity.
    - intros a b ? ?. congruence. }
  { intros done [i j] s (Hgs & Hss & Hls & Hfs & Hlks & Hles & Hlts) Hin. simpl.
    apply elem_of_split_pairs in Hin.
    destruct (lookup_lt_is_Some_2 pts i) as [p Hp].
    { unfold pts. rewrite instance_axis_length by done. lia. }
    destruct (lookup_lt_is_Some_2 pts j) as [q Hq].
    { unfold pts. rewrite instance_axis_length by done. lia. }
    rewrite Hp, Hq. simpl.
    pose proof (same_instance_length _ _ Hss) as Hlen.
    destruct (unlink_points_spec s p q Hgs) as
      (s' & -> & Hg' & Hs' & Hl' & Hf' & Hlen' & Hlk' & He').
    { rewrite Hlen. eapply instance_axis_lookup; [done|exact Hp]. }
    { rewrite Hlen. eapply instance_axis_lookup; [done|exact Hq]. }
    exists s'. split; [done|].
    assert (Hstep : ∀ a b, linked s' a b = true ↔
              linked st a b = true ∧ ¬ visited pts (done ++ [(i, j)]) a b).
    { intros a b. rewrite Hlk', andb_true_iff, negb_true_iff, Hlks.
      rewrite bool_decide_eq_false, (visited_snoc pts done i j p q) by done.
      tauto. }
    split; [done|]. split; [by eapply same_instance_trans|].
    split; [congruence|]. split; [congruence|]. split; [done|].
    assert (num_edges s' ≤ num_edges s) by (destruct (linked s p q); lia).
    split; [lia|].
    intros a b Hab Hab'. destruct (linked s a b) eqn:Es.
    - assert (linked s p q = true) as Hpq.
      { rewrite Hlk', Es in Hab'. simpl in Hab'.
        apply negb_false_iff, bool_decide_eq_true in Hab' as [[-> ->]|[-> ->]];
          [done|]. by rewrite (graph_sym _ Hgs). }
      rewrite Hpq in He'. lia.
    - specialize (Hlts a b Hab Es). lia. }
  simpl. eexists. split; [reflexivity|].
  split; [by apply (graph_ok_frame st1)|].
  split; [by destruct Hs1; constructor|].
  split; [done|]. split; [simpl; by rewrite Hf1|].
  split; [|split; [done|]].
  - intros a b. change (linked (set_final_lines _ st1) a b) with (linked st1 a b).
    apply eq_true_iff_eq. rewrite Hlk1, andb_true_iff, negb_true_iff.
    split.
    + intros [Hl Hv]. split; [done|].
      destruct (linked_lt st a b Hg Hl).
      apply not_true_is_false. intros Hcut. apply Hv.
      by apply (visited_split st ln c).
    + intros [Hl Hcut]. split; [done|].
      destruct (linked_lt st a b Hg Hl).
      unfold pts, pairs. rewrite (visited_split st ln c) by done. congruence.
  - intros a b. change (linked (set_final_lines _ st1) a b) with (linked st1 a b).
    apply Hlt1.
Qed.

Lemma links_to_break_spec st ln :
  instance_ok st → graph_ok st →
  ∃ k, links_to_break st (Some ln) = Ok k ∧ 0 ≤ k ∧
    (0 < k ↔ ∃ a b, linked st a b = true ∧ cuts st ln a b = true).
Proof.
  intros Hok Hg. unfold links_to_break.
  destruct (closest_point_spec st ln Hok) as (c & -> & Hrange & Hc). simpl.
  rewrite for_split_pairs, instance_npoints by done.
  set (pts := axis_points st (axis ln)).
  set (pairs := split_pairs (length (mypoints st)) c).
  destruct (foldM_invariant
    (λ done k, 0 ≤ k ∧
       (0 < k ↔ ∃ i j p q, (i, j) ∈ done ∧ pts !! i = Some p ∧ pts !! j = Some q ∧
                  linked st p q = true))
    (λ p num_links,
       pi ← valid (pts !! p.1); a ← deref st pi;
       pj ← valid (pts !! p.2); b ← deref st pj;
       row ← deref st (id a);
       c ← valid (connections row !! id b);
       Ok (if c is Some _ then num_links + 1 else num_links))
    pairs 0) as (k & -> & Hk0 & Hk).
  { split; [done|]. split; [lia|].
    intros (i & j & p & q & Hin & _). by apply elem_of_nil in Hin. }
  { intros done [i j] k [Hk0 Hk] Hin. simpl.
    apply elem_of_split_pairs in Hin.
    destruct (lookup_lt_is_Some_2 pts i) as [p Hp].
    { unfold pts. rewrite instance_axis_length by done. lia. }
    destruct (lookup_lt_is_Some_2 pts j) as [q Hq].
    { unfold pts. rewrite instance_axis_length by done. lia. }
    rewrite Hp, Hq. simpl.
    destruct (lookup_lt_is_Some_2 (mypoints st) p) as [a Ha].
    { eapply instance_axis_lookup; [done|exact Hp]. }
    destruct (lookup_lt_is_Some_2 (mypoints st) q) as [b Hb].
    { eapply instance_axis_lookup; [done|exact Hq]. }
    unfold deref. rewrite Ha. simpl. rewrite Hb. simpl.
    destruct (graph_rows _ Hg _ _ Ha) as [Hida Hlena].
    destruct (graph_rows _ Hg _ _ Hb) as [Hidb Hlenb].
    rewrite Hida, Ha, Hidb. simpl.
    destruct (lookup_lt_is_Some_2 (connections a) q) as [e He].
    { rewrite Hlena. by apply lookup_lt_Some in Hb. }
    rewrite He. simpl.
    assert (Hpq : linked st p q = if e is Some _ then true else false).
    { unfold linked. rewrite Ha, He. by destruct e. }
    eexists. split; [reflexivity|].
    destruct e as [e|]; simpl in Hpq.
    - split; [lia|]. split; [|lia]. intros _. exists i, j, p, q.
      split; [apply elem_of_app; right; by left|done].
    - split; [done|]. rewrite Hk. split.
      + intros (i' & j' & p' & q' & Hin' & H'). exists i', j', p', q'.
        split; [apply elem_of_app; by left|done].
      + intros (i' & j' & p' & q' & Hin' & Hp' & Hq' & Hl').
        apply elem_of_app in Hin' as [Hin'|Hin'].
        * by exists i', j', p', q'.
        * apply list_elem_of_singleton in Hin'. simplify_eq. congruence. }
  exists k. split; [done|]. split; [done|]. rewrite Hk. split.
  - intros (i & j & p & q & Hin & Hp & Hq & Hl). exists p, q.
    split; [done|]. by apply (Hc i j).
  - intros (a & b & Hl & Hcut).
    destruct (linked_lt st a b Hg Hl) as [Ha Hb].
    destruct (instance_axis_position st (axis ln) a Hok Ha) as [i Hi].
    destruct (instance_axis_position st (axis ln) b Hok Hb) as [j Hj].
    exists i, j, a, b. split; [by apply (Hc i j a b)|done].
Qed.

Lemma foldM_total {A T} (body : A → T → result T) l s :
  (∀ a s, a ∈ l → ∃ s', body a s = Ok s') → ∃ s', foldM body l s = Ok s'.
Proof.
  intros Hb.
  destruct (foldM_invariant (λ _ _, True) body l s) as (s' & ? & _); eauto.
  intros _ a s1 _ Ha. destruct (Hb a s1 Ha) as [s' ?]. eauto.
Qed.

Lemma foldM_Ok_prefix {A T} (P : list A → T → Prop) (body : A → T → result T) l s s' :
  foldM body l s = Ok s' →
  P [] s →
  (∀ done a rest s s', l = done ++ a :: rest → P done s → body a s = Ok s' →
     P (done ++ [a]) s') →
  P l s'.
Proof.
  intros Hrun H0 Hstep.
  cut (∀ rest done s0, l = done ++ rest → P done s0 →
         foldM body rest s0 = Ok s' → P l s').
  { intros Hc. by apply (Hc l [] s). }
  clear H0 Hrun. intros rest.
  induction rest as [|a rest IH]; intros done s0 Hl Hd Hrun; simpl in *.
  - simplify_eq. by rewrite app_nil_r.
  - apply bind_Ok in Hrun as (s1 & E1 & Hrun).
    apply (IH (done ++ [a]) s1); [by rewrite <- app_assoc| |done].
    by eapply Hstep.
Qed.

Lemma seq_prefix_lt s m (done : list nat) a rest j :
  seq s m = done ++ a :: rest → j ∈ done → (s ≤ j < a)%nat.
Proof.
  intros Hseq Hj.
  assert (a = (s + length done)%nat) as ->.
  { assert (seq s m !! length done = Some a) as Hl.
    { rewrite Hseq. by rewrite list_lookup_middle. }
    apply lookup_seq in Hl. lia. }
  apply list_elem_of_lookup in Hj as [i Hi].
  pose proof (lookup_lt_Some _ _ _ Hi) as Hlt.
  assert (seq s m !! i = Some j) as Hl.
  { rewrite Hseq. by rewrite lookup_app_l. }
  apply lookup_seq in Hl. lia.
Qed.

(** The scan of [main] for the best line *)

Lemma best_line_spec st idx sc :
  best_line st = Ok (idx, sc) →
  links_to_break st (line_at st idx) = Ok sc ∧
  (idx = 0 ∨ idx < length (lines st))%nat ∧
  ∀ j k, (j < length (lines st))%nat →
    links_to_break st (line_at st j) = Ok k →
    k ≤ sc ∧ ((j < idx)%nat → k < sc).
Proof.
  unfold best_line, for_loop. intros Hrun.
  apply bind_Ok in Hrun as (k0 & Hk0 & Hrun).
  pose proof (foldM_Ok_prefix
    (λ done best,
       links_to_break st (line_at st best.1) = Ok best.2 ∧
       (best.1 = 0%nat ∨ best.1 ∈ done) ∧
       ∀ j k, j = 0%nat ∨ j ∈ done →
         links_to_break st (line_at st j) = Ok k →
         k ≤ best.2 ∧ ((j < best.1)%nat → k < best.2))
    _ _ _ _ Hrun) as Hinv.
  destruct Hinv as (Hsc & Hidx & Hmax).
  - simpl. split; [done|]. split; [by left|].
    intros j k [->|Hj] Hk; [|by apply elem_of_nil in Hj].
    rewrite Hk0 in Hk. simplify_eq. lia.
  - intros done a rest [bi bs] s' Hseq (Hs & Hi & Hm) Hbody. simpl in *.
    apply bind_Ok in Hbody as (temp & Htemp & Hbody).
    assert (Hlt : ∀ j, j = 0%nat ∨ j ∈ done → (j < a)%nat).
    { intros j [->|Hj].
      - assert (a ∈ seq 1 (length (lines st) - 1)) as Ha.
        { rewrite Hseq. apply elem_of_app. right. by left. }
        apply elem_of_seq in Ha. lia.
      - pose proof (seq_prefix_lt _ _ _ _ _ _ Hseq Hj). lia. }
    assert (Hbi : (bi < a)%nat) by (apply Hlt; tauto).
    destruct (bs <? temp) eqn:Ecmp; simplify_eq; simpl.
    + apply Z.ltb_lt in Ecmp. split; [done|].
      split; [right; apply elem_of_app; right; by left|].
      intros j k Hj Hk. rewrite elem_of_app, list_elem_of_singleton in Hj.
      destruct (decide (j = a)) as [->|Hne].
      * rewrite Htemp in Hk. simplify_eq. lia.
      * destruct (Hm j k) as [Hle _]; [tauto|done|lia].
    + apply Z.ltb_ge in Ecmp. split; [done|].
      split; [destruct Hi; [by left|right; apply elem_of_app; by left]|].
      intros j k Hj Hk. rewrite elem_of_app, list_elem_of_singleton in Hj.
      destruct (decide (j = a)) as [->|Hne].
      * rewrite Htemp in Hk. simplify_eq. split; lia.
      * apply Hm; [tauto|done].
  - simpl in *. split; [done|]. split.
    + destruct Hidx as [?|Hin]; [by left|]. apply elem_of_seq in Hin. lia.
    + intros j k Hj Hk. apply Hmax; [|done].
      destruct j; [by left|right]. apply elem_of_seq. lia.
Qed.

Lemma best_line_total st :
  (∀ j, ∃ k, links_to_break st (line_at st j) = Ok k) →
  ∃ idx sc, best_line st = Ok (idx, sc).
Proof.
  intros Hall. unfold best_line, for_loop.
  destruct (Hall 0%nat) as [k0 ->]. simpl.
  destruct (foldM_total
    (λ j (best : nat * Z),
       temp ← links_to_break st (line_at st j);
       Ok (if best.2 <? temp then (j, temp) else best))
    (seq 1 (length (lines st) - 1)) (0%nat, k0)) as [[idx sc] ->]; [|eauto].
  intros j best _. destruct (Hall j) as [k ->]. simpl. eauto.
Qed.

(** Counting *)

Lemma least_witness (P : nat → Prop) `{∀ q, Decision (P q)} k :
  P k → ∃ m, P m ∧ (m ≤ k)%nat ∧ ∀ q, (q < m)%nat → ¬ P q.
Proof.
  induction (lt_wf k) as [k _ IH]. intros Hk.
  destruct (decide (Exists P (seq 0 k))) as [Hex|Hnone].
  - apply Exists_exists in Hex as (q & Hq & HP). apply elem_of_seq in Hq.
    destruct (IH q) as (m & Hm & Hle & Hmin); [lia|done|].
    exists m. split; [done|]. split; [lia|done].
  - exists k. split; [done|]. split; [lia|]. intros q Hq HP. apply Hnone.
    apply Exists_exists. exists q. split; [|done]. apply elem_of_seq. lia.
Qed.

Lemma sum_list_with_le_lt {A} (f g : A → nat) (l : list A) m :
  (∀ a, a ∈ l → (f a ≤ g a)%nat) → m ∈ l → (f m < g m)%nat →
  (sum_list_with f l < sum_list_with g l)%nat.
Proof.
  intros Hle Hm Hlt.
  assert (Hmono : ∀ l', (∀ a, a ∈ l' → (f a ≤ g a)%nat) →
            (sum_list_with f l' ≤ sum_list_with g l')%nat).
  { induction l' as [|a l' IH]; intros Hl'; simpl; [lia|].
    pose proof (Hl' a ltac:(left)). 
    assert (sum_list_with f l' ≤ sum_list_with g l')%nat; [|lia].
    apply IH. intros ??. apply Hl'. by right. }
  induction l as [|a l IH]; [by apply elem_of_nil in Hm|]. simpl.
  apply elem_of_cons in Hm as [->|Hm].
  - assert (sum_list_with f l ≤ sum_list_with g l)%nat; [|lia].
    apply Hmono. intros ??. apply Hle. by right.
  - pose proof (Hle a ltac:(left)).
    assert (sum_list_with f l < sum_list_with g l)%nat; [|lia].
    apply IH; [|done]. intros ??. apply Hle. by right.
Qed.

Lemma sum_list_with_pos {A} (f : A → nat) (l : list A) :
  (0 < sum_list_with f l)%nat → ∃ i a, l !! i = Some a ∧ (0 < f a)%nat.
Proof.
  induction l as [|a l IH]; simpl; [lia|]. intros Hpos.
  destruct (decide (0 < f a)%nat).
  - by exists 0%nat, a.
  - destruct IH as (i & b & Hi & Hb); [lia|]. by exists (S i), b.
Qed.

Lemma sum_list_with_bound {A} (f : A → nat) (l : list A) :
  (∀ a, f a ≤ 1)%nat → (sum_list_with f l ≤ length l)%nat.
Proof.
  intros Hf. induction l as [|a l IH]; simpl; [lia|]. specialize (Hf a). lia.
Qed.

Lemma active_count_pos st :
  (0 < active_count st)%nat → ∃ a b, linked st a b = true.
Proof.
  intros Hpos. apply sum_list_with_pos in Hpos as (a & pa & Ha & Hpos).
  apply sum_list_with_pos in Hpos as (b & c & Hb & Hc).
  exists a, b. unfold linked. rewrite Ha, Hb. destruct c; [done|simpl in Hc; lia].
Qed.

(** Cells *)

Lemma cuts_same_side st ln a b :
  cuts st ln a b || cuts st ln b a = false ↔ beyond st ln a = beyond st ln b.
Proof. unfold cuts. destruct (beyond st ln a), (beyond st ln b); simpl; intuition. Qed.

Lemma roots_le st : (roots st ≤ length (mypoints st))%nat.
Proof.
  unfold roots. etrans; [apply sum_list_with_bound|by rewrite length_seq].
  intros p. destruct (is_root st p); lia.
Qed.

Lemma is_root_true st p :
  is_root st p = true ↔ ∀ q, (q < p)%nat → linked st q p = false.
Proof.
  unfold is_root. rewrite forallb_forall. split.
  - intros Hall q Hq. apply negb_true_iff, Hall, list_elem_of_In, elem_of_seq. lia.
  - intros Hall q Hq. apply list_elem_of_In, elem_of_seq in Hq.
    apply negb_true_iff, Hall. lia.
Qed.

Lemma roots_grow st st1 ln :
  graph_ok st → cliques st →
  length (mypoints st1) = length (mypoints st) →
  (∀ a b, linked st1 a b =
     linked st a b && negb (cuts st ln a b || cuts st ln b a)) →
  (∃ a b, linked st a b = true ∧ cuts st ln a b = true) →
  (roots st < roots st1)%nat.
Proof.
  intros Hg Hcl Hlen Hlk (a & b & Hab & Hcut).
  destruct (linked_lt st a b Hg Hab) as [Ha Hb].
  apply andb_true_iff in Hcut as [Hba Hbb]. apply negb_true_iff in Hba.
  pose proof (graph_sym _ Hg) as Hsym.
  set (C q := q = a ∨ linked st q a = true).
  assert (HCC : ∀ p q, C p → C q → p ≠ q → linked st p q = true).
  { intros p q [->|Hp] [->|Hq] Hne; try done.
    - by rewrite Hsym.
    - apply (Hcl p a q); [done|by rewrite Hsym|done]. }
  assert (HCl : ∀ p q, C p → linked st q p = true → C q).
  { intros p q [->|Hp] Hq; [by right|].
    destruct (decide (q = a)) as [->|Hne]; [by left|right].
    by apply (Hcl q p a). }
  destruct (least_witness C a) as (r & Hr & Hra & Hrmin); [by left|].
  set (t := if decide (beyond st ln r = beyond st ln a) then b else a).
  assert (Ht : C t ∧ beyond st ln t ≠ beyond st ln r).
  { unfold t. destruct (decide _) as [E|E].
    - split; [right; by rewrite Hsym|]. rewrite E. congruence.
    - split; [by left|]. congruence. }
  destruct Ht as [HtC Htb].
  set (L q := C q ∧ beyond st ln q = beyond st ln t).
  destruct (least_witness L t) as (m & [HmC Hmb] & Hmt & Hmmin); [done|].
  assert (Hrm : (r < m)%nat).
  { destruct (decide (r = m)) as [->|]; [congruence|].
    destruct (decide (m < r)%nat); [|lia]. by destruct (Hrmin m). }
  assert (Hmn : (m < length (mypoints st))%nat).
  { assert (t < length (mypoints st))%nat; [|lia].
    unfold t. by destruct (decide _). }
  unfold roots. rewrite Hlen.
  apply (sum_list_with_le_lt _ _ _ m).
  - intros p _. destruct (is_root st p) eqn:Ep; [|lia].
    rewrite (proj2 (is_root_true st1 p)); [lia|].
    intros q Hq. rewrite Hlk.
    rewrite (proj1 (is_root_true st p) Ep q Hq). done.
  - apply elem_of_seq. lia.
  - assert (is_root st m = false) as ->.
    { apply not_true_is_false. rewrite is_root_true. intros Hroot.
      specialize (Hroot r Hrm).
      rewrite (HCC r m) in Hroot; [discriminate|done|done|lia]. }
    rewrite (proj2 (is_root_true st1 m)); [lia|].
    intros q Hq. rewrite Hlk. destruct (linked st q m) eqn:Eqm; [|done]. simpl.
    apply negb_false_iff. apply not_false_iff_true. intros Hside.
    apply cuts_same_side in Hside.
    apply (Hmmin q Hq). split; [by apply (HCl m)|congruence].
Qed.

(** One turn of the greedy loop *)

Lemma line_at_Some st j ln :
  line_at st j = Some ln ↔ lines st !! j = Some (Some ln).
Proof.
  unfold line_at. destruct (lines st !! j) as [[l|]|]; simpl; split; congruence.
Qed.

Lemma score_total st :
  instance_ok st → graph_ok st →
  ∀ j, ∃ k, links_to_break st (line_at st j) = Ok k.
Proof.
  intros Hok Hg j. destruct (line_at st j) as [ln|]; [|by exists 0].
  destruct (links_to_break_spec st ln Hok Hg) as (k & ? & _). eauto.
Qed.

Lemma commit_best_spec st :
  loop_ok st → num_edges st > 0 →
  ∃ idx sc ln st',
    best_line st = Ok (idx, sc) ∧ 1 ≤ sc ∧ lines st !! idx = Some (Some ln) ∧
    commit_best st = Ok st' ∧ loop_ok st' ∧ same_instance st st' ∧
    (live st' + 1 = live st)%nat ∧
    num_edges st' < num_edges st ∧
    final_lines st' = final_lines st ++ [ln] ∧
    lines st' = <[idx := None]> (lines st).
Proof.
  intros [Hok Hg Hcov Hcl Hroots] Hedges.
  (* some link is active, and a live candidate cuts it *)
  destruct (active_count_pos st) as (a & b & Hab).
  { pose proof (graph_count _ Hg). lia. }
  destruct (Hcov a b Hab) as (j & lj & Hj & Hcutj).
  destruct (links_to_break_spec st lj Hok Hg) as (kj & Hkj & _ & Hposj).
  assert (0 < kj) as Hkj1.
  { apply Hposj. apply orb_true_iff in Hcutj as [?|?]; [by exists a, b|].
    exists b, a. by rewrite (graph_sym _ Hg). }
  (* the scan returns a line that scores at least as much *)
  destruct (best_line_total st (score_total st Hok Hg)) as (idx & sc & Hbest).
  destruct (best_line_spec st idx sc Hbest) as (Hsc & Hidx & Hmax).
  destruct (Hmax j kj) as [Hle _].
  { by apply lookup_lt_Some in Hj. }
  { by rewrite (proj2 (line_at_Some st j lj) Hj). }
  destruct (line_at st idx) as [ln|] eqn:Eln; [|simpl in Hsc; simplify_eq; lia].
  pose proof (proj1 (line_at_Some st idx ln) Eln) as Hln.
  destruct (links_to_break_spec st ln Hok Hg) as (k & Hk & _ & Hpos).
  rewrite Hk in Hsc. simplify_eq.
  destruct Hpos as [(a' & b' & Hab' & Hcut') _]; [lia|].
  (* the commit *)
  pose proof (roots_le st) as Hrl. destruct Hok as (Hn & Hcap & Hrest).
  destruct (finalize_lines_spec st ln) as
    (st1 & Hfin & Hg1 & Hs1 & Hl1 & Hf1 & Hlk1 & Hle1 & Hlt1);
    [done|done|lia|].
  assert (Hok : instance_ok st) by done.
  exists idx, sc, ln. eexists.
  split; [done|]. split; [lia|]. split; [done|].
  unfold commit_best. rewrite Hbest. simpl. rewrite Eln, Hfin. simpl.
  split; [reflexivity|].
  set (st' := set_lines _ st1).
  assert (Hs' : same_instance st st') by (by destruct Hs1; constructor).
  assert (Hlk' : ∀ c d, linked st' c d =
            linked st c d && negb (cuts st ln c d || cuts st ln d c)) by apply Hlk1.
  assert (Hcut1 : linked st1 a' b' = false).
  { rewrite Hlk1, Hab', Hcut'. done. }
  split; [|split; [done|]]; [|split; [|split; [|split]]].
  - constructor.
    + by apply (same_instance_ok st).
    + by apply (graph_ok_frame st1).
    + intros c d Hcd. rewrite Hlk' in Hcd.
      apply andb_true_iff in Hcd as [Hcd Hside]. apply negb_true_iff in Hside.
      destruct (Hcov c d Hcd) as (j' & l' & Hj' & Hcut).
      destruct (decide (j' = idx)) as [->|Hne]; [simplify_eq; congruence|].
      exists j', l'. split.
      * unfold st'; simpl. rewrite list_lookup_insert_ne by done. by rewrite Hl1.
      * by rewrite !(same_instance_cuts st st').
    + intros c d e Hcd Hde Hne. rewrite Hlk' in *.
      apply andb_true_iff in Hcd as [Hcd Hs]. apply negb_true_iff in Hs.
      apply andb_true_iff in Hde as [Hde Hs2]. apply negb_true_iff in Hs2.
      rewrite (Hcl c d e) by done. simpl. apply negb_true_iff.
      apply cuts_same_side. apply cuts_same_side in Hs, Hs2. congruence.
    + change (final_lines st') with (final_lines st1). rewrite Hf1, length_app.
      simpl.
      assert (roots st < roots st')%nat; [|lia].
      apply (roots_grow st st' ln); [done|done| |done|eauto].
      apply (same_instance_length _ _ Hs').
  - unfold live, st'; simpl. rewrite Hl1.
    pose proof (sum_list_with_insert
      (λ l : option myline, if l is Some _ then 1%nat else 0%nat)
      (lines st) idx (Some ln) None Hln). simpl in *. lia.
  - change (num_edges st') with (num_edges st1). by apply (Hlt1 a' b').
  - done.
  - unfold st'; simpl. by rewrite Hl1.
Qed.

(** The greedy loop *)

Lemma greedy_loop_run st :
  loop_ok st →
  ∃ k st',
    (k ≤ live st)%nat ∧ commits k st = Ok st' ∧ num_edges st' = 0 ∧
    (∀ k' st'', (k' < k)%nat → commits k' st = Ok st'' → num_edges st'' > 0) ∧
    (∀ fuel, (k ≤ fuel)%nat → greedy_loop fuel st = Ok st') ∧
    (∀ fuel, (fuel < k)%nat → greedy_loop fuel st = OutOfFuel) ∧
    loop_ok st' ∧ same_instance st st' ∧
    length (final_lines st') = (length (final_lines st) + k)%nat.
Proof.
  remember (live st) as m eqn:Hm. revert st Hm.
  induction (lt_wf m) as [m _ IH]. intros st -> Hloop.
  destruct (decide (num_edges st > 0)) as [Hpos|Hzero].
  - destruct (commit_best_spec st Hloop Hpos) as
      (idx & sc & ln & st1 & _ & _ & _ & Hcommit & Hloop1 & Hs1 & Hlive & _ & Hf1 & _).
    destruct (IH (live st1) ltac:(lia) st1 eq_refl Hloop1) as
      (k & st' & Hk & Hrun & Hend & Hmid & Hfuel & Hout & Hloop' & Hs' & Hf').
    exists (S k), st'. split; [lia|]. split; [simpl; by rewrite Hcommit|].
    split; [done|]. split; [|split; [|split; [|split; [done|split]]]].
    + intros [|k'] st'' Hlt Hrun'; simpl in Hrun'; [by simplify_eq|].
      rewrite Hcommit in Hrun'. apply (Hmid k'); [lia|done].
    + intros [|fuel] Hle; [lia|]. simpl. rewrite decide_True by done.
      rewrite Hcommit. simpl. apply Hfuel. lia.
    + intros [|fuel] Hlt; simpl; rewrite decide_True by done; [done|].
      rewrite Hcommit. simpl. apply Hout. lia.
    + by eapply same_instance_trans.
    + rewrite Hf', Hf1, length_app. simpl. lia.
  - assert (num_edges st = 0) as Hz.
    { pose proof (graph_count _ (loop_graph _ Hloop)). lia. }
    exists 0%nat, st. split; [lia|]. split; [done|]. split; [done|].
    split; [intros; lia|]. split; [|split; [intros; lia|]].
    + intros fuel _. destruct fuel; simpl; by rewrite decide_False.
    + split; [done|]. split; [apply same_instance_refl|lia].
Qed.

(** [link_points] *)

Lemma wrap32_small z : 0 ≤ z < 2 ^ 32 → wrap32 z = z.
Proof. apply Z.mod_small. Qed.

Lemma wrap32_succ z : wrap32 (wrap32 z + 1) = wrap32 (z + 1).
Proof. unfold wrap32. by rewrite Zplus_mod_idemp_l. Qed.

Lemma full_row_S n i :
  full_row (S n) i = full_row n i ++ [if decide (i = n) then None else Some n].
Proof. unfold full_row. by rewrite seq_S, fmap_app. Qed.

Lemma linked_rows_lookup st i pt :
  mypoints st !! i = Some pt →
  linked_rows st !! i =
    Some (Point i (x pt) (y pt) (full_row (length (mypoints st)) i)).
Proof. intros Hi. unfold linked_rows. by rewrite list_lookup_imap, Hi. Qed.

Lemma length_linked_rows st : length (linked_rows st) = length (mypoints st).
Proof. unfold linked_rows. by rewrite length_imap. Qed.

Lemma link_points_loops st :
  num_points st = Z.of_nat (length (mypoints st)) →
  (length (mypoints st) ≤ MAX_POINTS)%nat →
  0 ≤ num_edges st < 2 ^ 32 →
  let n := length (mypoints st) in
  for_loop 0 n (λ i st,
      pt ← deref st i;
      let st := store i (Point i (x pt) (y pt) []) st in
      for_loop 0 n (λ j st,
          pt ← deref st i;
          if decide (MAX_POINTS ≤ j)%nat then Fault
          else if decide (i = j)
          then Ok (store i (set_connections (connections pt ++ [None]) pt) st)
          else Ok (set_num_edges (wrap32 (num_edges st + 1))
                     (store i (set_connections (connections pt ++ [Some j]) pt) st)))
        st) st
  = Ok (set_num_edges (wrap32 (num_edges st + Z.of_nat n * (Z.of_nat n - 1)))
          (set_mypoints (linked_rows st) st)).
Proof.
  intros Hn Hcap He n.
  set (rows i := take i (linked_rows st) ++ drop i (mypoints st)).
  set (F i := State (rows i) (x_points st) (y_points st) (lines st)
                (final_lines st) (num_points st)
                (wrap32 (num_edges st + Z.of_nat i * (Z.of_nat n - 1)))).
  assert (HF0 : F 0%nat = st).
  { unfold F, rows. rewrite Z.mul_0_l, Z.add_0_r, wrap32_small by done.
    simpl. rewrite drop_0. by destruct st. }
  assert (HFn : F n = set_num_edges
            (wrap32 (num_edges st + Z.of_nat n * (Z.of_nat n - 1)))
            (set_mypoints (linked_rows st) st)).
  { unfold F, rows, set_num_edges, set_mypoints; simpl. f_equal.
    rewrite take_ge by (rewrite length_linked_rows; done).
    rewrite drop_ge by done. by rewrite app_nil_r. }
  rewrite <- HFn, <- HF0 at 1.
  apply (for_loop_explicit F). intros i [_ Hi]. simpl in Hi. fold n in Hi.
  destruct (lookup_lt_is_Some_2 (mypoints st) i Hi) as [pt Hpt].
  assert (Hlr : length (take i (linked_rows st)) = i).
  { rewrite length_take, length_linked_rows. lia. }
  assert (Hrows : rows i !! i = Some pt).
  { unfold rows. rewrite lookup_app_r by lia. rewrite Hlr, Nat.sub_diag.
    by rewrite lookup_drop, Nat.add_0_r. }
  assert (Hd : deref (F i) i = Ok pt).
  { unfold deref. change (mypoints (F i)) with (rows i). by rewrite Hrows. }
  rewrite Hd. simpl.
  set (cnt j := Z.of_nat j - (if decide (i < j)%nat then 1 else 0)).
  set (G j := State (<[i := Point i (x pt) (y pt) (full_row j i)]> (rows i))
                (x_points st) (y_points st) (lines st) (final_lines st)
                (num_points st)
                (wrap32 (num_edges st + Z.of_nat i * (Z.of_nat n - 1) + cnt j))).
  assert (HG0 : G 0%nat = store i (Point i (x pt) (y pt) []) (F i)).
  { unfold G, store, set_mypoints, F, cnt; simpl. by rewrite Z.add_0_r. }
  assert (HGn : G n = F (S i)).
  { unfold G, F. f_equal.
    - unfold rows. rewrite insert_app_r_alt by lia.
      rewrite Hlr, Nat.sub_diag.
      rewrite (take_S_r _ _ _ (linked_rows_lookup st i pt Hpt)).
      rewrite (drop_S _ _ _ Hpt). simpl. by rewrite <- app_assoc.
    - f_equal. unfold cnt. rewrite decide_True by done. lia. }
  rewrite <- HG0, <- HGn.
  apply (for_loop_explicit G). intros j [_ Hj]. simpl in Hj.
  assert (HGi : mypoints (G j) !! i = Some (Point i (x pt) (y pt) (full_row j i))).
  { unfold G; simpl. apply list_lookup_insert_eq.
    unfold rows. rewrite length_app, Hlr, length_drop. lia. }
  unfold deref. rewrite HGi. simpl.
  rewrite decide_False by lia.
  destruct (decide (i = j)) as [->|Hne].
  - f_equal. unfold G, store, set_mypoints, set_connections; simpl. f_equal.
    + rewrite list_insert_insert_eq. by rewrite full_row_S, decide_True.
    + f_equal. unfold cnt. rewrite decide_False, decide_True by lia. lia.
  - f_equal. unfold G, store, set_mypoints, set_num_edges, set_connections; simpl.
    f_equal.
    + rewrite list_insert_insert_eq. by rewrite full_row_S, decide_False.
    + rewrite wrap32_succ. f_equal. unfold cnt.
      destruct (decide (i < j)%nat), (decide (i < S j)%nat); lia.
Qed.

Lemma link_points_spec st :
  num_points st = Z.of_nat (length (mypoints st)) →
  (length (mypoints st) ≤ MAX_POINTS)%nat →
  0 ≤ num_edges st < 2 ^ 32 →
  link_points st = if decide (num_edges st = 0) then Ok (complete_graph st) else Exit.
Proof.
  intros Hn Hcap He. unfold link_points.
  replace (Z.to_nat (num_points st)) with (length (mypoints st)) by lia.
  rewrite link_points_loops by done. simpl. rewrite Hn.
  set (n := Z.of_nat (length (mypoints st))).
  assert (Hn100 : 0 ≤ n ≤ 100) by (unfold MAX_POINTS in Hcap; lia).
  assert (Hprod : 0 ≤ n * (n - 1) ≤ 9900) by nia.
  assert (Hrhs : wrap32 (n * wrap32 (n - 1)) = n * (n - 1)).
  { destruct (decide (n = 0)) as [->|]; [done|].
    rewrite (wrap32_small (n - 1)) by lia. apply wrap32_small. lia. }
  rewrite Hrhs. destruct (decide (num_edges st = 0)) as [Hz|Hnz].
  - rewrite Hz, Z.add_0_l, wrap32_small by lia.
    by rewrite decide_True by done.
  - rewrite decide_False; [done|]. unfold wrap32.
    change (2 ^ 32) with 4294967296 in *. Z.div_mod_to_equations. lia.
Qed.

Lemma active_in_full_row_from (i a m : nat) :
  sum_list_with (λ c : option nat, if c is Some _ then 1%nat else 0%nat)
    ((λ j, if decide (i = j) then None else Some j) <$> seq a m)
  = (m - (if decide (a ≤ i < a + m)%nat then 1 else 0))%nat.
Proof.
  revert a. induction m as [|m IH]; intros a; simpl.
  - by destruct (decide _).
  - rewrite IH. destruct (decide (i = a)) as [->|Hne].
    + rewrite decide_False, decide_True by lia. lia.
    + destruct (decide (S a ≤ i < S a + m)%nat).
      * rewrite decide_True by lia. lia.
      * rewrite decide_False by lia. lia.
Qed.

Lemma active_in_full_row n i :
  (i < n)%nat → active_in (full_row n i) = (n - 1)%nat.
Proof.
  intros Hi. unfold active_in, full_row.
  rewrite active_in_full_row_from. by rewrite decide_True by lia.
Qed.

Lemma sum_list_with_const {A} (f : A → nat) (l : list A) c :
  (∀ i a, l !! i = Some a → f a = c) → sum_list_with f l = (length l * c)%nat.
Proof.
  induction l as [|a l IH]; intros Hc; simpl; [done|].
  rewrite (Hc 0%nat a) by done. rewrite IH; [lia|].
  intros i b Hi. by apply (Hc (S i)).
Qed.

Lemma linked_complete_graph st a b :
  linked (complete_graph st) a b =
  bool_decide (a ≠ b ∧ (a < length (mypoints st))%nat ∧ (b < length (mypoints st))%nat).
Proof.
  unfold linked, complete_graph; simpl.
  destruct (mypoints st !! a) as [pt|] eqn:Ha.
  - rewrite (linked_rows_lookup st a pt Ha). simpl.
    pose proof (lookup_lt_Some _ _ _ Ha) as Hlt.
    unfold full_row. rewrite list_lookup_fmap.
    destruct (decide (b < length (mypoints st))%nat) as [Hb|Hb].
    + rewrite lookup_seq_lt by done. simpl.
      destruct (decide (a = b)) as [->|Hne].
      * rewrite bool_decide_eq_false_2; [done|]. intros [? _]. done.
      * by rewrite bool_decide_eq_true_2.
    + rewrite lookup_seq_ge by lia. simpl.
      rewrite bool_decide_eq_false_2; [done|]. intros (_ & _ & ?). done.
  - assert (linked_rows st !! a = None) as ->.
    { apply lookup_ge_None. rewrite length_linked_rows.
      by apply lookup_ge_None in Ha. }
    rewrite bool_decide_eq_false_2; [done|]. intros (_ & ? & _).
    apply lookup_ge_None in Ha. lia.
Qed.

Lemma complete_graph_ok st :
  num_points st = Z.of_nat (length (mypoints st)) →
  (length (mypoints st) ≤ MAX_POINTS)%nat →
  graph_ok (complete_graph st).
Proof.
  intros Hn Hcap.
  set (n := Z.of_nat (length (mypoints st))).
  assert (Hn100 : 0 ≤ n ≤ 100) by (unfold MAX_POINTS in Hcap; lia).
  constructor.
  - simpl. by rewrite length_linked_rows.
  - simpl. rewrite length_linked_rows. intros k pt Hk.
    destruct (lookup_lt_is_Some_2 (mypoints st) k) as [pt0 Hpt0].
    { apply lookup_lt_Some in Hk. by rewrite length_linked_rows in Hk. }
    rewrite (linked_rows_lookup st k pt0 Hpt0) in Hk. simplify_eq. simpl.
    split; [done|]. unfold full_row. by rewrite length_fmap, length_seq.
  - intros a. rewrite linked_complete_graph.
    apply bool_decide_eq_false_2. intros [? _]. done.
  - intros a b. rewrite !linked_complete_graph.
    apply bool_decide_ext. intuition.
  - unfold active_count. simpl.
    rewrite (sum_list_with_const _ _ (length (mypoints st) - 1)%nat).
    + rewrite length_linked_rows. fold n. nia.
    + intros i pt Hi.
      destruct (lookup_lt_is_Some_2 (mypoints st) i) as [pt0 Hpt0].
      { apply lookup_lt_Some in Hi. by rewrite length_linked_rows in Hi. }
      rewrite (linked_rows_lookup st i pt0 Hpt0) in Hi. simplify_eq. simpl.
      apply active_in_full_row. by apply lookup_lt_Some in Hpt0.
  - simpl. fold n. nia.
  - simpl. fold n. rewrite Z.even_mul, Z.sub_1_r, Z.even_pred, <- Z.negb_even.
    by destruct (Z.even n).
Qed.

(** [pre_separate] *)

Lemma sorted_coord_lookup st a i p pt :
  axis_points st a !! i = Some p → mypoints st !! p = Some pt →
  sorted_coord st a i = axis_coord a pt.
Proof. intros Hi Hp. unfold sorted_coord, point_coord. by rewrite Hi; simpl; rewrite Hp. Qed.

Lemma candidates_loop st a (pre : list (option myline)) :
  instance_ok st →
  (length pre + (length (mypoints st) - 1) ≤ 2 * MAX_POINTS)%nat →
  for_loop 0 (length (mypoints st) - 1) (λ i st',
      p ← valid (axis_points st' a !! i); pa ← deref st' p;
      q ← valid (axis_points st' a !! S i); pb ← deref st' q;
      add_line (Line a (midpoint (axis_coord a pa) (axis_coord a pb))) st')
    (set_lines pre st)
  = Ok (set_lines (pre ++ ((λ i, Some (candidate st a i)) <$>
                             seq 0 (length (mypoints st) - 1))) st).
Proof.
  intros Hok Hcap.
  set (F i := set_lines (pre ++ ((λ i, Some (candidate st a i)) <$> seq 0 i)) st).
  assert (F 0%nat = set_lines pre st) as <-.
  { unfold F. simpl. by rewrite app_nil_r. }
  apply (for_loop_explicit F). intros i [_ Hi]. simpl in Hi.
  assert (Hax : axis_points (F i) a = axis_points st a) by (by destruct a).
  rewrite Hax.
  destruct (lookup_lt_is_Some_2 (axis_points st a) i) as [p Hp].
  { rewrite instance_axis_length by done. lia. }
  destruct (lookup_lt_is_Some_2 (axis_points st a) (S i)) as [q Hq].
  { rewrite instance_axis_length by done. lia. }
  destruct (lookup_lt_is_Some_2 (mypoints st) p) as [pa Hpa].
  { by eapply instance_axis_lookup. }
  destruct (lookup_lt_is_Some_2 (mypoints st) q) as [pb Hpb].
  { by eapply instance_axis_lookup. }
  rewrite Hp, Hq. unfold deref. simpl. rewrite Hpa. simpl. rewrite Hpb. simpl.
  assert (HFS : F (S i) = set_lines (lines (F i) ++ [Some (candidate st a i)]) (F i)).
  { unfold F at 1. rewrite seq_S, fmap_app, app_assoc. done. }
  rewrite HFS. unfold add_line. rewrite decide_False.
  - unfold candidate.
    by rewrite (sorted_coord_lookup st a i p pa), (sorted_coord_lookup st a (S i) q pb).
  - unfold F. simpl. rewrite length_app, length_fmap, length_seq.
    unfold MAX_POINTS in *. lia.
Qed.

Lemma pre_separate_spec st :
  instance_ok st →
  (length (lines st) + 2 * (length (mypoints st) - 1) ≤ 2 * MAX_POINTS)%nat →
  pre_separate st = Ok (with_candidates st).
Proof.
  intros Hok Hcap. unfold pre_separate.
  assert (Z.to_nat (wrap32 (num_points st - 1)) = (length (mypoints st) - 1)%nat) as ->.
  { destruct Hok as (-> & [H1 Hmax] & _). unfold MAX_POINTS in Hmax.
    rewrite wrap32_small; change (2 ^ 32) with 4294967296; lia. }
  unfold MAX_POINTS in Hcap.
  pose proof (candidates_loop st V (lines st) Hok) as HV. simpl in HV.
  assert (set_lines (lines st) st = st) as Hst by (by destruct st).
  rewrite Hst in HV. rewrite HV by lia. simpl.
  pose proof (candidates_loop st H
    (lines st ++ ((λ i, Some (candidate st V i)) <$>
                    seq 0 (length (mypoints st) - 1))) Hok) as HH.
  simpl in HH. 
  etrans; [|etrans; [apply HH|]].
  - done.
  - rewrite length_app, length_fmap, length_seq. unfold MAX_POINTS. lia.
  - unfold with_candidates, candidates. by rewrite app_assoc.
Qed.

Lemma candidates_lookup st a i :
  (i < length (mypoints st) - 1)%nat →
  ∃ j, candidates st !! j = Some (Some (candidate st a i)).
Proof.
  intros Hi. unfold candidates. destruct a.
  - exists i. rewrite lookup_app_l by (by rewrite length_fmap, length_seq).
    by rewrite list_lookup_fmap, lookup_seq_lt.
  - exists (length (mypoints st) - 1 + i)%nat.
    rewrite lookup_app_r by (rewrite length_fmap, length_seq; lia).
    rewrite length_fmap, length_seq.
    replace (length (mypoints st) - 1 + i - (length (mypoints st) - 1))%nat
      with i by lia.
    by rewrite list_lookup_fmap, lookup_seq_lt.
Qed.

Lemma length_candidates st :
  length (candidates st) = (2 * (length (mypoints st) - 1))%nat.
Proof.
  unfold candidates. rewrite length_app, !length_fmap, !length_seq. lia.
Qed.

Lemma live_candidates st :
  lines st = [] → live (with_candidates st) = (2 * (length (mypoints st) - 1))%nat.
Proof.
  intros Hl. unfold live, with_candidates. simpl. rewrite Hl. simpl.
  rewrite (sum_list_with_const _ _ 1%nat).
  - rewrite length_candidates. lia.
  - intros i [l|] Hi; [done|].
    apply list_elem_of_lookup_2 in Hi. unfold candidates in Hi.
    apply elem_of_app in Hi as [Hi|Hi];
      apply list_elem_of_fmap in Hi as (? & ? & _); done.
Qed.

(** A strict step lies between two positions with different coordinates. *)
Lemma strict_step (f : nat → Z) i j :
  (i < j)%nat → f i < f j → ∃ k, (i ≤ k < j)%nat ∧ f k < f (S k).
Proof.
  intros Hij. induction Hij as [|j Hij IH]; intros Hf.
  - exists i. split; [lia|done].
  - destruct (decide (f j < f (S j))).
    + exists j. split; [|done]. unfold lt in *. lia.
    + destruct IH as (k & Hk & Hstep); [lia|].
      exists k. split; [lia|done].
Qed.

Lemma cutting_candidate st ax a b :
  instance_ok st →
  (a < length (mypoints st))%nat → (b < length (mypoints st))%nat →
  point_coord st ax a < point_coord st ax b →
  ∃ i, (i < length (mypoints st) - 1)%nat ∧ cuts st (candidate st ax i) a b = true.
Proof.
  intros Hok Ha Hb Hlt.
  destruct (instance_axis_position st ax a Hok Ha) as [ia Hia].
  destruct (instance_axis_position st ax b Hok Hb) as [ib Hib].
  assert (sorted_coord st ax ia = point_coord st ax a) as Hca.
  { unfold sorted_coord. by rewrite Hia. }
  assert (sorted_coord st ax ib = point_coord st ax b) as Hcb.
  { unfold sorted_coord. by rewrite Hib. }
  assert (Hiab : (ia < ib)%nat).
  { destruct (decide (ia < ib)%nat); [done|].
    pose proof (instance_sorted_lookup st ax ib ia b a Hok ltac:(lia) Hib Hia). lia. }
  destruct (strict_step (sorted_coord st ax) ia ib Hiab) as (k & Hk & Hstep);
    [lia|].
  pose proof (lookup_lt_Some _ _ _ Hib) as Hibn.
  rewrite instance_axis_length in Hibn by done.
  exists k. split; [lia|].
  destruct (lookup_lt_is_Some_2 (axis_points st ax) k) as [p Hp].
  { rewrite instance_axis_length by done. lia. }
  destruct (lookup_lt_is_Some_2 (axis_points st ax) (S k)) as [q Hq].
  { rewrite instance_axis_length by done. lia. }
  assert (sorted_coord st ax k = point_coord st ax p) as Hck.
  { unfold sorted_coord. by rewrite Hp. }
  assert (sorted_coord st ax (S k) = point_coord st ax q) as Hck'.
  { unfold sorted_coord. by rewrite Hq. }
  pose proof (instance_sorted_lookup st ax ia k a p Hok ltac:(lia) Hia Hp).
  pose proof (instance_sorted_lookup st ax (S k) ib q b Hok ltac:(lia) Hq Hib).
  unfold cuts, beyond, candidate. simpl. rewrite !Qltb_midpoint.
  apply andb_true_iff. split.
  - apply negb_true_iff, Z.ltb_ge. lia.
  - apply Z.ltb_lt. lia.
Qed.

(** The state the greedy loop starts from *)

Lemma geometry_complete_graph st : geometry (complete_graph st) = geometry st.
Proof.
  unfold geometry, complete_graph; simpl. apply list_eq. intros i.
  rewrite !list_lookup_fmap.
  destruct (mypoints st !! i) as [pt|] eqn:Hi.
  - by rewrite (linked_rows_lookup st i pt Hi).
  - assert (linked_rows st !! i = None) as ->; [|done].
    apply lookup_ge_None. rewrite length_linked_rows. by apply lookup_ge_None in Hi.
Qed.

Lemma same_instance_complete_graph st : same_instance st (complete_graph st).
Proof. constructor; try done. apply geometry_complete_graph. Qed.

Lemma same_instance_with_candidates st : same_instance st (with_candidates st).
Proof. by constructor. Qed.

Lemma distinct_coord st a b :
  instance_ok st → a ≠ b →
  (a < length (mypoints st))%nat → (b < length (mypoints st))%nat →
  point_coord st V a ≠ point_coord st V b ∨ point_coord st H a ≠ point_coord st H b.
Proof.
  intros (_ & _ & _ & _ & _ & _ & Hnd) Hne Ha Hb.
  destruct (lookup_lt_is_Some_2 _ _ Ha) as [pa Hpa].
  destruct (lookup_lt_is_Some_2 _ _ Hb) as [pb Hpb].
  unfold point_coord. rewrite Hpa, Hpb. simpl.
  destruct (decide (x pa = x pb)) as [Hx|]; [|by left].
  destruct (decide (y pa = y pb)) as [Hy|]; [|by right].
  destruct Hne. apply (NoDup_lookup _ a b (x pa, y pa) Hnd).
  - unfold geometry. by rewrite list_lookup_fmap, Hpa.
  - unfold geometry. rewrite list_lookup_fmap, Hpb. simpl. by rewrite Hx, Hy.
Qed.

Lemma covered_candidates st a b :
  instance_ok st → a ≠ b →
  (a < length (mypoints st))%nat → (b < length (mypoints st))%nat →
  ∃ j ln, candidates st !! j = Some (Some ln) ∧
          cuts st ln a b || cuts st ln b a = true.
Proof.
  intros Hok Hne Ha Hb.
  assert (∃ ax, point_coord st ax a ≠ point_coord st ax b) as [ax Hax].
  { destruct (distinct_coord st a b) as [?|?]; eauto. }
  destruct (decide (point_coord st ax a < point_coord st ax b)) as [Hlt|Hge].
  - destruct (cutting_candidate st ax a b) as (i & Hi & Hcut); try done.
    destruct (candidates_lookup st ax i Hi) as [j Hj].
    exists j, (candidate st ax i). split; [done|]. by rewrite Hcut.
  - destruct (cutting_candidate st ax b a) as (i & Hi & Hcut); try done; [lia|].
    destruct (candidates_lookup st ax i Hi) as [j Hj].
    exists j, (candidate st ax i). split; [done|]. by rewrite Hcut, orb_true_r.
Qed.

Lemma loop_ok_init st :
  instance_ok st → lines st = [] → final_lines st = [] →
  loop_ok (with_candidates (complete_graph st)).
Proof.
  intros Hok Hl Hf.
  pose proof (same_instance_complete_graph st) as Hs1.
  pose proof (same_instance_ok _ _ Hs1 Hok) as Hok1.
  pose proof (same_instance_length _ _ Hs1) as Hlen.
  destruct Hok as (Hn & Hcap & _).
  assert (Hg1 : graph_ok (complete_graph st)) by (apply complete_graph_ok; [done|lia]).
  constructor.
  - by apply (same_instance_ok _ _ (same_instance_with_candidates _)).
  - by apply (graph_ok_frame (complete_graph st)).
  - intros a b Hab.
    change (linked (complete_graph st) a b = true) in Hab.
    rewrite linked_complete_graph in Hab.
    apply bool_decide_eq_true in Hab as (Hne & Ha & Hb).
    destruct (covered_candidates (complete_graph st) a b) as (j & ln & Hj & Hcut);
      [done|done|lia|lia|].
    exists j, ln. split; [|done]. unfold with_candidates; simpl. by rewrite Hl.
  - intros a b c Hab Hbc Hne.
    change (linked (with_candidates ?s) ?p ?q) with (linked s p q) in *.
    rewrite linked_complete_graph in *.
    apply bool_decide_eq_true in Hab as (_ & Ha & _).
    apply bool_decide_eq_true in Hbc as (_ & _ & Hc).
    by apply bool_decide_eq_true.
  - simpl. rewrite Hf. simpl. unfold roots. simpl.
    rewrite length_linked_rows.
    assert (0 ∈ seq 0 (length (mypoints st)))%nat as H0 by (apply elem_of_seq; lia).
    pose proof (sum_list_with_in _
      (λ p, if is_root (with_candidates (complete_graph st)) p then 1%nat else 0%nat)
      _ H0) as Hle.
    simpl in Hle. unfold lt. exact Hle.
Qed.




Lemma unlink_points_noop st a b :
  graph_ok st → (a < length (mypoints st))%nat → (b < length (mypoints st))%nat →
  linked st a b = false → unlink_points a b st = Ok st.
Proof.
  intros Hg Ha Hb Hl.
  destruct (lookup_lt_is_Some_2 _ _ Ha) as [p1 Hp1].
  destruct (lookup_lt_is_Some_2 _ _ Hb) as [p2 Hp2].
  destruct (graph_rows _ Hg _ _ Hp1) as [Hid1 Hlen1].
  destruct (graph_rows _ Hg _ _ Hp2) as [Hid2 Hlen2].
  destruct (lookup_lt_is_Some_2 (connections p1) b) as [c Hc]; [lia|].
  unfold unlink_points, deref. rewrite Hp1, Hp2. simpl. rewrite Hid2, Hc. simpl.
  unfold linked in Hl. rewrite Hp1, Hc in Hl. by destruct c.
Qed.

Lemma unlink_points_Ok_lt st a b st' :
  graph_ok st → unlink_points a b st = Ok st' →
  (a < length (mypoints st))%nat ∧ (b < length (mypoints st))%nat.
Proof.
  intros Hg Hrun. unfold unlink_points, deref in Hrun.
  apply bind_Ok in Hrun as (p1 & Hp1 & Hrun). apply valid_Ok in Hp1.
  apply bind_Ok in Hrun as (p2 & Hp2 & Hrun). apply valid_Ok in Hp2.
  split; by eapply lookup_lt_Some.
Qed.

Lemma unlink_points_graph_ok st a b st' :
  graph_ok st → unlink_points a b st = Ok st' → graph_ok st'.
Proof.
  intros Hg Hrun.
  destruct (unlink_points_Ok_lt st a b st' Hg Hrun) as [Ha Hb].
  destruct (unlink_points_spec st a b Hg Ha Hb) as (st'' & Hrun' & Hg' & _).
  congruence.
Qed.

Lemma finalize_lines_graph_ok st ln st' :
  graph_ok st → finalize_lines ln st = Ok st' → graph_ok st'.
Proof.
  intros Hg Hrun. destruct ln as [ln|]; simpl in Hrun; [|by simplify_eq].
  destruct (decide _); [done|].
  apply bind_Ok in Hrun as (c & Hc & Hrun).
  apply bind_Ok in Hrun as (st1 & Hloop & Hrun). simplify_eq.
  apply (graph_ok_frame st1); try done.
  rewrite for_split_pairs in Hloop.
  apply (foldM_Ok_inv (λ _ s, graph_ok s) _ _ _ _ Hloop); [done|].
  intros _ [i j] s s' Hs _ Hbody. simpl in Hbody.
  apply bind_Ok in Hbody as (p & _ & Hbody).
  apply bind_Ok in Hbody as (q & _ & Hbody).
  by eapply unlink_points_graph_ok.
Qed.

(** Frames of the scoring functions *)

Lemma closest_point_from_frame st st' ln count i :
  mypoints st' = mypoints st → x_points st' = x_points st →
  y_points st' = y_points st →
  closest_point_from st' ln count i = closest_point_from st ln count i.
Proof.
  intros Hm Hx Hy. revert i. induction count as [|count IH]; intros i; simpl; [done|].
  assert (axis_points st' (axis ln) = axis_points st (axis ln)) as ->
    by (by destruct (axis ln)).
  destruct (axis_points st (axis ln) !! i) as [p|]; simpl; [|done].
  unfold deref. rewrite Hm. destruct (mypoints st !! p) as [pt|]; simpl; [|done].
  by rewrite IH.
Qed.

Lemma links_to_break_frame st st' ln :
  mypoints st' = mypoints st → x_points st' = x_points st →
  y_points st' = y_points st → num_points st' = num_points st →
  links_to_break st' ln = links_to_break st ln.
Proof.
  intros Hm Hx Hy Hn. destruct ln as [ln|]; simpl; [|done].
  unfold closest_point. rewrite Hn, (closest_point_from_frame st st') by done.
  destruct (closest_point_from st ln _ _) as [c| | |]; simpl; try done.
  rewrite !for_split_pairs, Hn.
  assert (axis_points st' (axis ln) = axis_points st (axis ln)) as ->
    by (by destruct (axis ln)).
  apply foldM_ext. intros [i j] k _. unfold deref. by rewrite Hm.
Qed.

Lemma foldM_fixed {A T} (body : A → T → result T) l s :
  (∀ a, a ∈ l → body a s = Ok s) → foldM body l s = Ok s.
Proof.
  induction l as [|a l IH]; intros Hb; simpl; [done|].
  rewrite Hb by left. simpl. apply IH. intros ??. apply Hb. by right.
Qed.

(** A pool without a positive score *)

Lemma best_line_exhausted st : exhausted st → best_line st = Ok (0%nat, 0).
Proof.
  intros Hex. unfold best_line. rewrite (Hex 0%nat). simpl.
  apply foldM_fixed. intros j _. by rewrite (Hex j).
Qed.

Lemma finalize_lines_zero_score st ln :
  graph_ok st → links_to_break st (Some ln) = Ok 0 →
  (length (final_lines st) < MAX_POINTS)%nat →
  finalize_lines (Some ln) st = Ok (set_final_lines (final_lines st ++ [ln]) st).
Proof.
  intros Hg Hscore Hcap. unfold finalize_lines. rewrite decide_False by lia.
  simpl in Hscore. apply bind_Ok in Hscore as (c & Hc & Hloop). rewrite Hc. simpl.
  rewrite for_split_pairs in Hloop. rewrite for_split_pairs.
  set (pts := axis_points st (axis ln)) in *.
  assert (Hgood : ∀ p, p ∈ split_pairs (Z.to_nat (num_points st)) c →
    ∃ pi pj, pts !! p.1 = Some pi ∧ pts !! p.2 = Some pj ∧
      (pi < length (mypoints st))%nat ∧ (pj < length (mypoints st))%nat ∧
      linked st pi pj = false).
  { pose proof (foldM_Ok_inv
      (λ (done : list (nat * nat)) (k : Z), 0 ≤ k ∧ (k = 0 → ∀ p, p ∈ done →
         ∃ pi pj, pts !! p.1 = Some pi ∧ pts !! p.2 = Some pj ∧
           (pi < length (mypoints st))%nat ∧ (pj < length (mypoints st))%nat ∧
           linked st pi pj = false))
      _ _ _ _ Hloop) as Hinv.
    apply Hinv; [|clear Hinv|done].
    - split; [done|]. intros _ p Hp. by apply elem_of_nil in Hp.
    - intros done [i j] k k' [Hk0 Hk] _ Hbody. simpl in Hbody.
      apply bind_Ok in Hbody as (pi & Hpi & Hbody). apply valid_Ok in Hpi.
      apply bind_Ok in Hbody as (a & Ha & Hbody). apply valid_Ok in Ha.
      apply bind_Ok in Hbody as (pj & Hpj & Hbody). apply valid_Ok in Hpj.
      apply bind_Ok in Hbody as (b & Hb & Hbody). apply valid_Ok in Hb.
      apply bind_Ok in Hbody as (row & Hrow & Hbody). apply valid_Ok in Hrow.
      apply bind_Ok in Hbody as (e & He & Hbody). apply valid_Ok in He.
      destruct (graph_rows _ Hg _ _ Ha) as [Hida _].
      destruct (graph_rows _ Hg _ _ Hb) as [Hidb _].
      rewrite Hida in Hrow. rewrite Hidb in He.
      assert (row = a) as -> by congruence.
      assert (k' = if e is Some _ then k + 1 else k) as -> by congruence.
      clear Hbody Hrow.
      destruct e as [e|]; (split; [lia|]); intros Hz; [lia|].
      intros p Hp. apply elem_of_app in Hp as [Hp|Hp]; [by apply Hk|].
      apply list_elem_of_singleton in Hp. subst p. simpl.
      exists pi, pj. split; [done|]. split; [done|].
      split; [by eapply lookup_lt_Some|]. split; [by eapply lookup_lt_Some|].
      unfold linked. by rewrite Ha, He. }
  rewrite foldM_fixed; [done|].
  intros p Hp. destruct (Hgood p Hp) as (pi & pj & -> & -> & Hi & Hj & Hl). simpl.
  by apply unlink_points_noop.
Qed.

Lemma line_at_consumed {A} (ls : list (option A)) (j : nat) :
  mjoin (<[0%nat := None]> ls !! j) = if decide (j = 0%nat) then None else mjoin (ls !! j).
Proof.
  destruct (decide (j = 0%nat)) as [->|Hne].
  - by destruct ls.
  - by rewrite list_lookup_insert_ne.
Qed.

Lemma commit_best_exhausted st :
  graph_ok st → exhausted st → (length (final_lines st) < MAX_POINTS)%nat →
  ∃ st', commit_best st = Ok st' ∧ graph_ok st' ∧ exhausted st' ∧
    num_edges st' = num_edges st ∧ line_at st' 0 = None ∧
    final_lines st' = final_lines st ++ option_list (line_at st 0).
Proof.
  intros Hg Hex Hcap. unfold commit_best. rewrite best_line_exhausted by done.
  simpl.
  assert (∃ st1, finalize_lines (line_at st 0) st = Ok st1 ∧
            mypoints st1 = mypoints st ∧ x_points st1 = x_points st ∧
            y_points st1 = y_points st ∧ num_points st1 = num_points st ∧
            num_edges st1 = num_edges st ∧ lines st1 = lines st ∧
            final_lines st1 = final_lines st ++ option_list (line_at st 0))
    as (st1 & -> & Hm & Hx & Hy & Hn & He & Hl & Hf).
  { pose proof (Hex 0%nat) as H0. destruct (line_at st 0) as [ln|].
    - rewrite finalize_lines_zero_score by done. eexists. by split.
    - eexists. split; [done|]. simpl. by rewrite app_nil_r. }
  simpl. eexists. split; [done|].
  split; [by apply (graph_ok_frame st)|]. split; [|split; [done|split; [|done]]].
  - intros j. unfold line_at. simpl. rewrite Hl, line_at_consumed.
    rewrite (links_to_break_frame st) by done.
    destruct (decide _); [done|]. apply Hex.
  - unfold line_at. simpl. by rewrite line_at_consumed.
Qed.

Lemma commit_best_stuck st :
  graph_ok st → exhausted st → line_at st 0 = None → commit_best st = Ok st.
Proof.
  intros Hg Hex H0. unfold commit_best. rewrite best_line_exhausted by done.
  simpl. rewrite H0. simpl. f_equal.
  assert (<[0%nat := None]> (lines st) = lines st) as ->.
  { unfold line_at in H0. destruct (lines st) as [|[l|] ls]; simplify_eq/=; done. }
  by destruct st.
Qed.

Lemma greedy_loop_stuck st fuel :
  num_edges st > 0 → commit_best st = Ok st → greedy_loop fuel st = OutOfFuel.
Proof.
  intros Hpos Hfix. induction fuel as [|fuel IH]; simpl;
    rewrite decide_True by done; [done|]. by rewrite Hfix.
Qed.

(** [pre_separate] without points *)

Lemma deref_cases st p : deref st p = Fault ∨ ∃ pt, deref st p = Ok pt.
Proof. unfold deref. destruct (mypoints st !! p); simpl; eauto. Qed.

Lemma candidates_loop_fault a m i st :
  (0 < m)%nat → (length (axis_points st a) ≤ i + m)%nat →
  foldM (λ i st',
      p ← valid (axis_points st' a !! i); pa ← deref st' p;
      q ← valid (axis_points st' a !! S i); pb ← deref st' q;
      add_line (Line a (midpoint (axis_coord a pa) (axis_coord a pb))) st')
    (seq i m) st = Fault.
Proof.
  revert i st. induction m as [|m IH]; intros i st Hm Hlen; [lia|]. simpl.
  destruct (axis_points st a !! i) as [p|] eqn:Hp; simpl; [|done].
  destruct (deref_cases st p) as [->|[pa ->]]; simpl; [done|].
  destruct (axis_points st a !! S i) as [q|] eqn:Hq; simpl; [|done].
  destruct (deref_cases st q) as [->|[pb ->]]; simpl; [done|].
  unfold add_line. destruct (decide _); simpl; [done|].
  apply lookup_lt_Some in Hq.
  apply IH.
  - lia.
  - assert (axis_points (set_lines (lines st ++
      [Some (Line a (midpoint (axis_coord a pa) (axis_coord a pb)))]) st) a
      = axis_points st a) as -> by (by destruct a). lia.
Qed.

Lemma pre_separate_no_points st :
  num_points st = 0 → (length (x_points st) ≤ MAX_POINTS)%nat →
  pre_separate st = Fault.
Proof.
  intros Hn Hlen. unfold pre_separate, for_loop. rewrite Hn.
  change (wrap32 (0 - 1)) with 4294967295.
  rewrite (candidates_loop_fault V); [done|lia|].
  simpl. unfold MAX_POINTS in Hlen. lia.
Qed.

(** Reachable states of the greedy loop *)



Lemma best_line_scores st r j :
  best_line st = Ok r → (j < length (lines st))%nat →
  ∃ k, links_to_break st (line_at st j) = Ok k.
Proof.
  unfold best_line, for_loop. intros Hrun Hj.
  apply bind_Ok in Hrun as (k0 & Hk0 & Hrun).
  destruct j as [|j]; [eauto|].
  pose proof (foldM_Ok_inv
    (λ (done : list nat) (_ : nat * Z),
       ∀ j, j ∈ done → ∃ k, links_to_break st (line_at st j) = Ok k)
    _ _ _ _ Hrun) as Hinv.
  apply Hinv.
  - intros ? Hin. by apply elem_of_nil in Hin.
  - intros done a best best' Hd _ Hbody j' Hj'.
    apply bind_Ok in Hbody as (temp & Htemp & _).
    apply elem_of_app in Hj' as [?|Hj']; [by apply Hd|].
    apply list_elem_of_singleton in Hj'. subst. eauto.
  - apply elem_of_seq. lia.
Qed.

Lemma start_run st :
  instance_ok st → num_edges st = 0 → lines st = [] →
  link_points st = Ok (complete_graph st) ∧
  pre_separate (complete_graph st) = Ok (with_candidates (complete_graph st)).
Proof.
  intros Hok Hz Hl.
  pose proof (same_instance_ok _ _ (same_instance_complete_graph st) Hok) as Hok1.
  destruct Hok as (Hn & Hcap & _). split.
  - rewrite link_points_spec; [by rewrite decide_True|done|lia|by rewrite Hz].
  - apply pre_separate_spec; [done|].
    change (lines (complete_graph st)) with (lines st).
    change (mypoints (complete_graph st)) with (linked_rows st).
    rewrite Hl, length_linked_rows. simpl length at 1. unfold MAX_POINTS in *. lia.
Qed.

(** Sorting *)

Lemma insert_by_perm {A} (compar : A → A → Z) a l :
  insert_by compar a l ≡ₚ a :: l.
Proof.
  induction l as [|b l IH]; simpl; [done|].
  destruct (compar a b <=? 0); [done|]. rewrite IH. apply Permutation_swap.
Qed.

Lemma qsort_perm {A} (compar : A → A → Z) l : qsort compar l ≡ₚ l.
Proof.
  induction l as [|a l IH]; simpl; [done|].
  rewrite insert_by_perm. by rewrite IH.
Qed.

Lemma insert_by_sorted {A} (compar : A → A → Z) (key : A → Z) a l :
  (∀ b, b ∈ l → compar a b = key a - key b) →
  Sorted Z.le (key <$> l) → Sorted Z.le (key <$> insert_by compar a l).
Proof.
  intros Hc Hs. induction l as [|b l IH]; simpl.
  - repeat constructor.
  - rewrite (Hc b) by left. destruct (key a - key b <=? 0) eqn:E.
    + apply Z.leb_le in E. simpl. constructor; [done|]. constructor. lia.
    + apply Z.leb_gt in E. simpl in *. apply Sorted_inv in Hs as [Hs Hhd].
      constructor.
      * apply IH; [|done]. intros c Hin. apply Hc. by right.
      * destruct l as [|c l]; simpl.
        { constructor. lia. }
        rewrite (Hc c) by (right; left).
        destruct (key a - key c <=? 0); simpl; constructor; [lia|].
        by apply HdRel_inv in Hhd.
Qed.

Lemma qsort_sorted {A} (compar : A → A → Z) (key : A → Z) l :
  (∀ a b, a ∈ l → b ∈ l → compar a b = key a - key b) →
  StronglySorted Z.le (key <$> qsort compar l).
Proof.
  intros Hc. apply Sorted_StronglySorted; [apply _|].
  induction l as [|a l IH]; simpl; [constructor|].
  apply insert_by_sorted.
  - intros b Hb. rewrite qsort_perm in Hb. apply Hc; [left|by right].
  - apply IH. intros b c Hb Hc'. apply Hc; by right.
Qed.

(** A well-formed instance file yields a valid instance. *)
Lemma load_instance_ok pts :
  (1 ≤ length pts ≤ MAX_POINTS)%nat → NoDup pts →
  StronglySorted Z.le (pts.*1) →
  read_file (FileData (Z.of_nat (length pts)) pts) initial_state =
    (FILE_SUCCESS, (read_file (FileData (Z.of_nat (length pts)) pts) initial_state).2) ∧
  instance_ok (load (FileData (Z.of_nat (length pts)) pts)) ∧
  num_edges (load (FileData (Z.of_nat (length pts)) pts)) = 0 ∧
  lines (load (FileData (Z.of_nat (length pts)) pts)) = [] ∧
  final_lines (load (FileData (Z.of_nat (length pts)) pts)) = [].
Proof.
  intros [H1 Hcap] Hnd Hsx. unfold load, read_file.
  assert (Htake : take MAX_POINTS pts = pts) by (by apply take_ge).
  rewrite Htake.
  assert (Hw : wrap32 (Z.of_nat (length pts)) = Z.of_nat (length pts)).
  { apply wrap32_small. unfold MAX_POINTS in Hcap.
    change (2 ^ 32) with 4294967296. lia. }
  rewrite Hw, decide_True by done. split; [done|].
  simpl. split; [|done].
  set (ps := (λ p : Z * Z, Point 0 p.1 p.2 []) <$> pts).
  set (st := State ps (seq 0 (length pts)) (seq 0 (length pts)) [] [] 
               (Z.of_nat (length pts)) 0).
  assert (Hlen : length ps = length pts) by (unfold ps; by rewrite length_fmap).
  assert (Hcoord : ∀ a p, (p < length pts)%nat →
            point_coord st a p = from_option (λ q : Z * Z,
              match a with V => q.1 | H => q.2 end) 0 (pts !! p)).
  { intros a p Hp. unfold point_coord, st, ps. simpl. rewrite list_lookup_fmap.
    destruct (pts !! p) as [q|]; simpl; [by destruct a|done]. }
  assert (Hcmp : ∀ a b, a ∈ seq 0 (length pts) → b ∈ seq 0 (length pts) →
            compare_pointers st a b = point_coord st H a - point_coord st H b).
  { intros a b Ha Hb. apply elem_of_seq in Ha, Hb.
    unfold compare_pointers, point_coord.
    destruct (lookup_lt_is_Some_2 ps a) as [pa Hpa]; [unfold st; simpl; lia|].
    destruct (lookup_lt_is_Some_2 ps b) as [pb Hpb]; [unfold st; simpl; lia|].
    simpl. by rewrite Hpa, Hpb. }
  unfold instance_ok, sort_y_points. simpl. rewrite Hlen.
  split; [done|]. split; [done|]. split; [done|].
  split; [apply qsort_perm|]. split; [|split].
  - replace (point_coord _ V <$> seq 0 (length pts)) with (pts.*1); [done|].
    apply list_eq. intros i. rewrite !list_lookup_fmap.
    destruct (decide (i < length pts)%nat) as [Hi|Hi].
    + rewrite lookup_seq_lt by done. simpl.
      change (point_coord _ V i) with (point_coord st V i).
      rewrite Hcoord by done.
      destruct (lookup_lt_is_Some_2 pts i Hi) as [q ->]. done.
    + rewrite lookup_seq_ge by lia. rewrite (lookup_ge_None_2 pts) by lia. done.
  - change (point_coord _ H) with (point_coord st H).
    by apply qsort_sorted.
  - match goal with |- NoDup ?g => replace g with pts end; [done|].
    unfold geometry, ps. simpl. apply list_eq. intros i.
    rewrite list_lookup_fmap. subst ps. rewrite list_lookup_fmap.
    by destruct (pts !! i) as [[??]|].
Qed.

(** From the instance file to the solution [main] writes: for a file of
    1 to [MAX_POINTS] distinct points sorted by x, [main] ends normally and
    writes one solution of fewer than n lines. *)
Lemma main_separates pts :
  (1 ≤ length pts ≤ MAX_POINTS)%nat → NoDup pts →
  StronglySorted Z.le (pts.*1) →
  ∃ solution,
    (length solution < length pts)%nat ∧
    ∀ fuel, (2 * (length pts - 1) ≤ fuel)%nat →
      main fuel [FileData (Z.of_nat (length pts)) pts] = Ok [(1%nat, solution)].
Proof.
  intros Hn Hnd Hsx.
  set (f := FileData (Z.of_nat (length pts)) pts).
  destruct (load_instance_ok pts Hn Hnd Hsx) as (Hread & Hok & He & Hl & Hf).
  fold f in Hread, Hok, He, Hl, Hf.
  assert (Hlen : length (mypoints (load f)) = length pts).
  { unfold load, f, read_file. rewrite take_ge by lia.
    destruct (decide _); simpl; by rewrite length_fmap. }
  pose proof (loop_ok_init _ Hok Hl Hf) as Hloop.
  destruct (greedy_loop_run _ Hloop) as
    (k & st3 & Hk & _ & _ & _ & Hfuel & _ & Hloop3 & Hs3 & Hf3).
  rewrite live_candidates in Hk by done. simpl in Hk.
  rewrite length_linked_rows, Hlen in Hk.
  exists (final_lines st3). split.
  { pose proof (loop_roots _ Hloop3) as Hroots. pose proof (roots_le st3) as Hle.
    rewrite (same_instance_length _ _ Hs3) in Hle. simpl in Hle.
    rewrite length_linked_rows, Hlen in Hle. lia. }
  intros fuel Hfu. unfold main. simpl take. unfold main_from.
  rewrite Hread. cbv beta iota. unfold separate. cbv zeta.
  change (sort_y_points (read_file f initial_state).2) with (load f).
  destruct Hok as (Hnp & Hcap & Hrest).
  rewrite link_points_spec; [|done|lia|by rewrite He].
  rewrite decide_True, mbind_Ok by done.
  rewrite pre_separate_spec.
  - rewrite mbind_Ok, Hfuel, mbind_Ok by lia. done.
  - by apply (same_instance_ok _ _ (same_instance_complete_graph _)).
  - change (lines (complete_graph (load f))) with (lines (load f)).
    change (mypoints (complete_graph (load f))) with (linked_rows (load f)).
    rewrite Hl, length_linked_rows. simpl length at 1. unfold MAX_POINTS in *. lia.
Qed.

(** * Properties of the engine *)



(** C2. In a turn of the greedy loop, the scan [best_line] returns slot
    [idx] with score [sc]; when that slot holds a candidate, this candidate
    is the one committed, its score is [sc], every candidate still in the
    pool scores at most [sc], and every candidate enumerated before it
    scores strictly less: among equal top scores the first one wins. *)
Theorem best_line_first_maximum st idx sc ln :
  best_line st = Ok (idx, sc) → lines st !! idx = Some (Some ln) →
  links_to_break st (Some ln) = Ok sc ∧
  commit_best st =
    (st' ← finalize_lines (Some ln) st;
     Ok (set_lines (<[idx := None]> (lines st')) st')) ∧
  ∀ j lj, lines st !! j = Some (Some lj) →
    ∃ k, links_to_break st (Some lj) = Ok k ∧ k ≤ sc ∧ ((j < idx)%nat → k < sc).
Proof.
  intros Hbest Hln.
  destruct (best_line_spec st idx sc Hbest) as (Hsc & _ & Hmax).
  pose proof (proj2 (line_at_Some st idx ln) Hln) as Eln.
  rewrite Eln in Hsc. split; [done|]. split.
  - unfold commit_best. rewrite Hbest. simpl. by rewrite Eln.
  - intros j lj Hj.
    pose proof (lookup_lt_Some _ _ _ Hj) as Hlt.
    destruct (best_line_scores st _ j Hbest Hlt) as [k Hk].
    destruct (Hmax j k Hlt Hk) as [Hle Hfirst].
    rewrite (proj2 (line_at_Some st j lj) Hj) in Hk. eauto.
Qed.

(** C2 on three points after the first commit: slot 0 is consumed, the
    three candidates left all score 1, and the first of them wins. *)
Lemma best_line_first_maximum_witness :
  best_line after_first_commit = Ok (1%nat, 1) ∧
  lines after_first_commit !! 1%nat = Some (Some (Line V 3)) ∧
  links_to_break after_first_commit (Some (Line V 3)) = Ok 1 ∧
  commit_best after_first_commit =
    (st' ← finalize_lines (Some (Line V 3)) after_first_commit;
     Ok (set_lines (<[1%nat := None]> (lines st')) st')) ∧
  ∀ j lj, lines after_first_commit !! j = Some (Some lj) →
    ∃ k, links_to_break after_first_commit (Some lj) = Ok k ∧ k ≤ 1 ∧
         ((j < 1)%nat → k < 1).
Proof.
  assert (H1 : best_line after_first_commit = Ok (1%nat, 1)) by (by vm_compute).
  assert (H2 : lines after_first_commit !! 1%nat = Some (Some (Line V 3)))
    by (by vm_compute).
  split; [exact H1|]. split; [exact H2|].
  exact (best_line_first_maximum after_first_commit 1 1 (Line V 3) H1 H2).
Defined.

(** What [closest_point] returns on a sorted order: when some point lies
    beyond the line, the positions up to the result are exactly those of
    the points not beyond it. *)
Lemma closest_point_largest st ln :
  instance_ok st →
  (∃ j p, axis_points st (axis ln) !! j = Some p ∧ beyond st ln p = true) →
  ∃ c, closest_point st ln = Ok c ∧
    ∀ i p, axis_points st (axis ln) !! i = Some p →
      (Z.of_nat i ≤ c ↔ beyond st ln p = false).
Proof.
  intros Hok (j & q & Hj & Hq). unfold closest_point.
  rewrite instance_npoints by done.
  destruct (closest_point_from_spec st ln (length (mypoints st)) 0 Hok)
    as (c & Hc & [[-> Hall]|(k & pk & -> & Hk & Hbk & Hlow)]); [done|lia| |].
  - rewrite (Hall j q Hj) in Hq. discriminate.
  - exists (Z.of_nat k - 1). split; [done|]. intros i p Hi. split.
    + intros Hle. apply (Hlow i); [lia|done].
    + intros Hp. destruct (decide (i < k)%nat); [lia|].
      rewrite (beyond_mono st ln k i pk p) in Hp; [done|done|lia|done..].
Qed.

(** ... and -1 when no point lies beyond the line, whatever lies below. *)
Lemma closest_point_none_beyond st ln :
  instance_ok st →
  (∀ j p, axis_points st (axis ln) !! j = Some p → beyond st ln p = false) →
  closest_point st ln = Ok (-1).
Proof.
  intros Hok Hall. unfold closest_point. rewrite instance_npoints by done.
  destruct (closest_point_from_spec st ln (length (mypoints st)) 0 Hok)
    as (c & Hc & [[-> _]|(k & pk & -> & Hk & Hbk & _)]); [done|lia|done|].
  rewrite (Hall k pk Hk) in Hbk. discriminate.
Qed.

(** C3 fails on the code when no point lies beyond the line. For the
    points (0,0) and (0,1), a valid instance, [pre_separate] generates the
    vertical candidate x = 0.0. Both points have an x-coordinate <= 0.0, so
    the largest such index is 1, but [closest_point] falls through its loop
    and returns -1. The same happens for a line to the right of all points,
    such as x = 5.0 over the points (0,0) and (2,2). *)
Theorem closest_point_column :
  (st ← link_points (load column_points); pre_separate st)
    = Ok (start column_points) ∧
  instance_ok (start column_points) ∧
  line_at (start column_points) 0 = Some (Line V 0) ∧
  x_points (start column_points) = [0%nat; 1%nat] ∧
  beyond (start column_points) (Line V 0) 0 = false ∧
  beyond (start column_points) (Line V 0) 1 = false ∧
  closest_point (start column_points) (Line V 0) = Ok (-1) ∧
  instance_ok (start two_points) ∧
  x_points (start two_points) = [0%nat; 1%nat] ∧
  beyond (start two_points) (Line V 5) 0 = false ∧
  beyond (start two_points) (Line V 5) 1 = false ∧
  closest_point (start two_points) (Line V 5) = Ok (-1).
Proof.
  split; [by vm_compute|].
  split; [apply (bool_decide_unpack _); by vm_compute|].
  do 5 (split; [by vm_compute|]).
  split; [apply (bool_decide_unpack _); by vm_compute|].
  repeat split; by vm_compute.
Qed.

(** C4 fails on the code for n = 0. An instance file that declares 0
    points is read successfully; [num_points - 1] then wraps to 2^32 - 1 and
    the first loop of [pre_separate] reads [x_points[0]], which was never
    written: undefined behaviour instead of an empty pool. *)
Theorem pre_separate_no_points_faults :
  read_file no_points initial_state = (FILE_SUCCESS, load no_points) ∧
  num_points (load no_points) = 0 ∧
  link_points (load no_points) = Ok (load no_points) ∧
  wrap32 (num_points (load no_points) - 1) = 4294967295 ∧
  pre_separate (load no_points) = Fault ∧
  ∀ fuel, main fuel [no_points] = Fault.
Proof.
  assert (Hlink : link_points (load no_points) = Ok (load no_points))
    by (by vm_compute).
  assert (Hpre : pre_separate (load no_points) = Fault)
    by (by apply pre_separate_no_points; [|vm_compute; lia]).
  split; [by vm_compute|]. split; [by vm_compute|]. split; [done|].
  split; [by vm_compute|]. split; [done|].
  intros fuel. unfold main. simpl take.
  unfold main_from.
  change (read_file no_points initial_state) with (FILE_SUCCESS, load no_points).
  cbv beta iota. unfold separate.
  change (sort_y_points (load no_points)) with (load no_points).
  cbv zeta. rewrite Hlink, mbind_Ok, Hpre. done.
Qed.

(** For 1 <= n <= [MAX_POINTS] the pool is as C4 states: n - 1 vertical
    candidates at the midpoints of x-adjacent points, then n - 1 horizontal
    ones at the midpoints of y-adjacent points. *)
Lemma pre_separate_pool st :
  instance_ok st → lines st = [] →
  ∃ st', pre_separate st = Ok st' ∧
    num_all_lines st' = 2 * (Z.of_nat (length (mypoints st)) - 1) ∧
    lines st' =
      ((λ i, Some (Line V (midpoint (sorted_coord st V i) (sorted_coord st V (S i)))))
         <$> seq 0 (length (mypoints st) - 1)) ++
      ((λ i, Some (Line H (midpoint (sorted_coord st H i) (sorted_coord st H (S i)))))
         <$> seq 0 (length (mypoints st) - 1)).
Proof.
  intros Hok Hl. exists (with_candidates st).
  pose proof Hok as (_ & [H1 Hcap] & _). unfold MAX_POINTS in Hcap.
  split; [apply pre_separate_spec; [done|rewrite Hl; simpl; unfold MAX_POINTS; lia]|].
  unfold num_all_lines, with_candidates. simpl. rewrite Hl. simpl.
  rewrite length_candidates. split; [lia|done].
Qed.

(** C5 fails on the code: the loop has no exhaustion check. Counterexample:
    the point (0,0) given twice. Two links are active, both candidates
    score 0, and the loop neither stops nor reports anything: whatever the
    bound on its turns, it is still running. *)
Lemma twin_points_never_halt :
  (st ← link_points (load twin_points); pre_separate st)
    = Ok (start twin_points) ∧
  num_edges (start twin_points) = 2 ∧
  (∀ j, links_to_break (start twin_points) (line_at (start twin_points) j) = Ok 0) ∧
  ∀ fuel, greedy_loop fuel (start twin_points) = OutOfFuel.
Proof.
  assert (Hex : exhausted (start twin_points)).
  { intros [|[|j]]; by vm_compute. }
  assert (Hg : graph_ok (start twin_points)).
  { apply (graph_ok_frame (complete_graph (load twin_points))); try done.
    apply complete_graph_ok; [done|vm_compute; lia]. }
  split; [by vm_compute|]. split; [by vm_compute|]. split; [exact Hex|].
  destruct (commit_best_exhausted (start twin_points) Hg Hex) as
    (st' & Hc & Hg' & Hex' & He' & H0 & _); [vm_compute; lia|].
  intros [|fuel]; [done|].
  rewrite greedy_loop_turn, Hc, mbind_Ok by (by vm_compute).
  apply greedy_loop_stuck.
  - rewrite He'. by vm_compute.
  - by apply commit_best_stuck.
Qed.

(** C5, amended. When no slot of the pool has a positive score while links
    remain, the turn selects slot 0, commits its line if it is still there
    (a line that breaks nothing) and clears the slot; the link count is
    unchanged. Every later turn leaves the state as it is, so the loop
    never exits and no error is raised. *)
Theorem exhausted_pool_never_halts st :
  graph_ok st → num_edges st > 0 → exhausted st →
  (length (final_lines st) < MAX_POINTS)%nat →
  ∃ st', commit_best st = Ok st' ∧ num_edges st' = num_edges st ∧
    final_lines st' = final_lines st ++ option_list (line_at st 0) ∧
    commit_best st' = Ok st' ∧
    ∀ fuel, greedy_loop fuel st = OutOfFuel.
Proof.
  intros Hg Hpos Hex Hcap.
  destruct (commit_best_exhausted st Hg Hex Hcap) as
    (st' & Hc & Hg' & Hex' & He' & H0 & Hf).
  pose proof (commit_best_stuck st' Hg' Hex' H0) as Hfix.
  exists st'. split; [done|]. split; [done|]. split; [done|]. split; [done|].
  intros [|fuel]; simpl; rewrite decide_True by done; [done|].
  rewrite Hc. simpl. apply greedy_loop_stuck; [lia|done].
Qed.

(** The amended C5 on the twin points. *)
Lemma exhausted_pool_never_halts_witness :
  graph_ok (start twin_points) ∧ num_edges (start twin_points) > 0 ∧
  exhausted (start twin_points) ∧
  (length (final_lines (start twin_points)) < MAX_POINTS)%nat ∧
  ∃ st', commit_best (start twin_points) = Ok st' ∧
    num_edges st' = num_edges (start twin_points) ∧
    final_lines st' = final_lines (start twin_points) ++
                      option_list (line_at (start twin_points) 0) ∧
    commit_best st' = Ok st' ∧
    ∀ fuel, greedy_loop fuel (start twin_points) = OutOfFuel.
Proof.
  assert (Hg : graph_ok (start twin_points)).
  { apply (graph_ok_frame (complete_graph (load twin_points))); try done.
    apply complete_graph_ok; [done|vm_compute; lia]. }
  assert (Hpos : num_edges (start twin_points) > 0) by (by vm_compute).
  assert (Hex : exhausted (start twin_points)).
  { intros [|[|j]]; by vm_compute. }
  assert (Hcap : (length (final_lines (start twin_points)) < MAX_POINTS)%nat)
    by (vm_compute; lia).
  repeat (split; [done|]).
  exact (exhausted_pool_never_halts (start twin_points) Hg Hpos Hex Hcap).
Defined.

(** C6 fails on the code: the consistency check of [link_points] ends the
    program. Counterexample: with a stale link counter the check fails on
    the first of two instances, [exit(0)] ends the run, and the second
    instance, which is processed without trouble on its own, is never
    read. *)
Lemma link_points_exit_ends_run :
  link_points (load two_points) = Ok (complete_graph (load two_points)) ∧
  link_points (set_num_edges 2 (load two_points)) = Exit ∧
  main_from 5 1 [two_points; two_points] stale_count [] = Exit ∧
  main_from 5 2 [two_points] initial_state [] = Ok [(2%nat, [Line V 1])].
Proof. repeat split; by vm_compute. Qed.

(** C6, amended. [link_points] adds n(n-1) to [num_edges] and compares the
    result with n(n-1). When they differ (the counter was not 0 on entry) it
    calls [exit(0)], which ends the whole run: [main] writes no solution
    for this instance and reads no later one. When they agree the graph is
    complete: every ordered pair of distinct points is linked. *)
Theorem link_points_check st :
  num_points st = Z.of_nat (length (mypoints st)) →
  (length (mypoints st) ≤ MAX_POINTS)%nat →
  0 ≤ num_edges st < 2 ^ 32 →
  (num_edges st ≠ 0 ∧ link_points st = Exit ∧
   ∀ fuel file_index f files st0 written,
     (read_file f st0).1 = FILE_SUCCESS → sort_y_points (read_file f st0).2 = st →
     main_from fuel file_index (f :: files) st0 written = Exit)
  ∨
  (num_edges st = 0 ∧
   ∃ st', link_points st = Ok st' ∧
     num_edges st' = Z.of_nat (length (mypoints st)) *
                     (Z.of_nat (length (mypoints st)) - 1) ∧
     ∀ a b, (a < length (mypoints st))%nat → (b < length (mypoints st))%nat →
       linked st' a b = bool_decide (a ≠ b)).
Proof.
  intros Hn Hcap He. pose proof (link_points_spec st Hn Hcap He) as Hlink.
  destruct (decide (num_edges st = 0)) as [Hz|Hnz].
  - right. split; [done|]. exists (complete_graph st).
    split; [done|]. split; [done|]. intros a b Ha Hb.
    rewrite linked_complete_graph. apply bool_decide_ext. tauto.
  - left. split; [done|]. split; [done|].
    intros fuel file_index f files st0 written Hread Hsort. simpl.
    destruct (read_file f st0) as [status st1]. simpl in Hread, Hsort. subst status.
    unfold separate. cbv zeta. by rewrite Hsort, Hlink.
Qed.

(** The amended C6 on two points and a stale counter. *)
Lemma link_points_check_witness :
  num_points (set_num_edges 2 (load two_points)) =
    Z.of_nat (length (mypoints (set_num_edges 2 (load two_points)))) ∧
  (length (mypoints (set_num_edges 2 (load two_points))) ≤ MAX_POINTS)%nat ∧
  0 ≤ num_edges (set_num_edges 2 (load two_points)) < 2 ^ 32 ∧
  num_edges (set_num_edges 2 (load two_points)) ≠ 0 ∧
  link_points (set_num_edges 2 (load two_points)) = Exit ∧
  ∀ fuel file_index f files st0 written,
    (read_file f st0).1 = FILE_SUCCESS →
    sort_y_points (read_file f st0).2 = set_num_edges 2 (load two_points) →
    main_from fuel file_index (f :: files) st0 written = Exit.
Proof.
  assert (H1 : num_points (set_num_edges 2 (load two_points)) =
    Z.of_nat (length (mypoints (set_num_edges 2 (load two_points)))))
    by (by vm_compute).
  assert (H2 : (length (mypoints (set_num_edges 2 (load two_points))) ≤ MAX_POINTS)%nat)
    by (vm_compute; lia).
  assert (H3 : 0 ≤ num_edges (set_num_edges 2 (load two_points)) < 2 ^ 32)
    by (by vm_compute).
  split; [exact H1|]. split; [exact H2|]. split; [exact H3|].
  destruct (link_points_check _ H1 H2 H3) as [Hexit|(Hz & _)].
  - exact Hexit.
  - discriminate Hz.
Defined.

(** C7. [unlink_points] on an active link clears both directions and takes
    2 off the link count, which stays the number of active entries; on a
    link already removed it changes nothing. Either way a second call
    changes nothing. *)
Theorem unlink_points_idempotent st i j :
  graph_ok st → (i < length (mypoints st))%nat → (j < length (mypoints st))%nat →
  ∃ st', unlink_points i j st = Ok st' ∧
    linked st' i j = false ∧ linked st' j i = false ∧
    (∀ a b, ¬ (a = i ∧ b = j) → ¬ (a = j ∧ b = i) →
       linked st' a b = linked st a b) ∧
    num_edges st' = num_edges st - (if linked st i j then 2 else 0) ∧
    Z.of_nat (active_count st') =
      Z.of_nat (active_count st) - (if linked st i j then 2 else 0) ∧
    (linked st i j = false → st' = st) ∧
    unlink_points i j st' = Ok st'.
Proof.
  intros Hg Hi Hj.
  destruct (unlink_points_spec st i j Hg Hi Hj) as
    (st' & Hrun & Hg' & _ & _ & _ & Hlen & Hlk & He).
  exists st'. split; [done|].
  assert (Hij : linked st' i j = false).
  { rewrite Hlk, bool_decide_eq_true_2 by auto. by rewrite andb_false_r. }
  split; [done|]. split.
  { rewrite Hlk, bool_decide_eq_true_2 by auto. by rewrite andb_false_r. }
  split.
  { intros a b H1 H2. rewrite Hlk, bool_decide_eq_false_2 by tauto.
    by rewrite andb_true_r. }
  split; [done|]. split.
  { rewrite <- (graph_count _ Hg'), <- (graph_count _ Hg). done. }
  split.
  { intros Hl. rewrite (unlink_points_noop st i j Hg Hi Hj Hl) in Hrun.
    by simplify_eq. }
  apply unlink_points_noop; [done|lia|lia|done].
Qed.

(** C7 on the link between the points (0,0) and (2,2). *)
Lemma unlink_points_idempotent_witness :
  graph_ok (start two_points) ∧
  (0 < length (mypoints (start two_points)))%nat ∧
  (1 < length (mypoints (start two_points)))%nat ∧
  ∃ st', unlink_points 0 1 (start two_points) = Ok st' ∧
    linked st' 0 1 = false ∧ linked st' 1 0 = false ∧
    (∀ a b, ¬ (a = 0%nat ∧ b = 1%nat) → ¬ (a = 1%nat ∧ b = 0%nat) →
       linked st' a b = linked (start two_points) a b) ∧
    num_edges st' = num_edges (start two_points) -
                    (if linked (start two_points) 0 1 then 2 else 0) ∧
    Z.of_nat (active_count st') =
      Z.of_nat (active_count (start two_points)) -
      (if linked (start two_points) 0 1 then 2 else 0) ∧
    (linked (start two_points) 0 1 = false → st' = start two_points) ∧
    unlink_points 0 1 st' = Ok st'.
Proof.
  assert (Hg : graph_ok (start two_points)).
  { apply (graph_ok_frame (complete_graph (load two_points))); try done.
    apply complete_graph_ok; [done|vm_compute; lia]. }
  assert (H0 : (0 < length (mypoints (start two_points)))%nat) by (vm_compute; lia).
  assert (H1 : (1 < length (mypoints (start two_points)))%nat) by (vm_compute; lia).
  repeat (split; [done|]).
  exact (unlink_points_idempotent (start two_points) 0 1 Hg H0 H1).
Defined.



(** C9. The points (0,0) and (2,2): the pool is the vertical line x = 1.0
    followed by the horizontal line y = 1.0, each scores 1 against the one
    active link, the scan selects slot 0 (the vertical line), committing it
    leaves no link, and the solution written is that single line. *)
Theorem two_points_scenario :
  ∃ st1 st2 st3,
    link_points (load two_points) = Ok st1 ∧
    pre_separate st1 = Ok st2 ∧
    lines st2 = [Some (Line V 1); Some (Line H 1)] ∧
    num_edges st2 = 2 ∧
    links_to_break st2 (Some (Line V 1)) = Ok 1 ∧
    links_to_break st2 (Some (Line H 1)) = Ok 1 ∧
    best_line st2 = Ok (0%nat, 1) ∧
    commit_best st2 = Ok st3 ∧
    num_edges st3 = 0 ∧
    final_lines st3 = [Line V 1] ∧
    (∀ fuel, greedy_loop (S fuel) st2 = Ok st3) ∧
    ∀ fuel, main (S fuel) [two_points] = Ok [(1%nat, [Line V 1])].
Proof.
  eexists _, _, _.
  split; [by vm_compute|]. split; [by vm_compute|].
  assert (Hc : commit_best (start two_points) =
            Ok (set_lines [None; Some (Line H 1)]
                  (set_final_lines [Line V 1]
                     (set_num_edges 0
                        (set_mypoints
                           [Point 0 0 0 [None; None]; Point 1 2 2 [None; None]]
                           (start two_points))))))
    by (by vm_compute).
  assert (Hloop : ∀ fuel, greedy_loop (S fuel) (start two_points) = Ok
            (set_lines [None; Some (Line H 1)]
                  (set_final_lines [Line V 1]
                     (set_num_edges 0
                        (set_mypoints
                           [Point 0 0 0 [None; None]; Point 1 2 2 [None; None]]
                           (start two_points)))))).
  { intros fuel. rewrite greedy_loop_turn by (by vm_compute).
    rewrite Hc, mbind_Ok. by apply greedy_loop_exit. }
  split; [by vm_compute|]. split; [by vm_compute|]. split; [by vm_compute|].
  split; [by vm_compute|]. split; [by vm_compute|]. split; [exact Hc|].
  split; [by vm_compute|]. split; [by vm_compute|]. split; [exact Hloop|].
  intros fuel. unfold main. simpl take. unfold main_from.
  change (read_file two_points initial_state)
    with (FILE_SUCCESS, (read_file two_points initial_state).2).
  cbv beta iota. unfold separate. cbv zeta.
  change (sort_y_points (read_file two_points initial_state).2)
    with (load two_points).
  assert (link_points (load two_points) = Ok (complete_graph (load two_points)))
    as -> by (by vm_compute).
  rewrite mbind_Ok.
  assert (pre_separate (complete_graph (load two_points)) = Ok (start two_points))
    as -> by (by vm_compute).
  rewrite mbind_Ok, Hloop, mbind_Ok. by vm_compute.
Qed.

(** C10. After [link_points] and after any sequence of [unlink_points] and
    [finalize_lines] calls that follows it, the connection entries are
    symmetric, no point is linked to itself, [num_edges] is the number of
    active entries, and it is even. *)
Theorem graph_stays_symmetric st0 st1 ops st2 :
  num_points st0 = Z.of_nat (length (mypoints st0)) →
  (length (mypoints st0) ≤ MAX_POINTS)%nat →
  0 ≤ num_edges st0 < 2 ^ 32 →
  link_points st0 = Ok st1 → foldM run_op ops st1 = Ok st2 →
  (∀ i j, linked st2 i j = linked st2 j i) ∧
  (∀ i, linked st2 i i = false) ∧
  num_edges st2 = Z.of_nat (active_count st2) ∧
  Z.even (num_edges st2) = true.
Proof.
  intros Hn Hcap He Hlink Hops.
  assert (Hg1 : graph_ok st1).
  { rewrite (link_points_spec st0 Hn Hcap He) in Hlink.
    destruct (decide _); [|done]. simplify_eq. by apply complete_graph_ok. }
  assert (Hg2 : graph_ok st2).
  { apply (foldM_Ok_inv (λ _ s, graph_ok s) _ _ _ _ Hops); [done|].
    intros _ [a b|ln] s s' Hs _ Hrun; simpl in Hrun.
    - by eapply unlink_points_graph_ok.
    - by eapply finalize_lines_graph_ok. }
  destruct Hg2 as [_ _ Hirr Hsym Hcount _ Heven]. done.
Qed.

(** C10 on two points: unlink, commit a line, unlink again. *)
Lemma graph_stays_symmetric_witness :
  num_points (load two_points) = Z.of_nat (length (mypoints (load two_points))) ∧
  (length (mypoints (load two_points)) ≤ MAX_POINTS)%nat ∧
  0 ≤ num_edges (load two_points) < 2 ^ 32 ∧
  link_points (load two_points) = Ok (complete_graph (load two_points)) ∧
  foldM run_op [Unlink 0 1; Finalize (Some (Line V 1)); Unlink 1 0]
    (complete_graph (load two_points)) = Ok separated_pair ∧
  (∀ i j, linked separated_pair i j = linked separated_pair j i) ∧
  (∀ i, linked separated_pair i i = false) ∧
  num_edges separated_pair = Z.of_nat (active_count separated_pair) ∧
  Z.even (num_edges separated_pair) = true.
Proof.
  assert (H1 : num_points (load two_points) =
    Z.of_nat (length (mypoints (load two_points)))) by (by vm_compute).
  assert (H2 : (length (mypoints (load two_points)) ≤ MAX_POINTS)%nat)
    by (vm_compute; lia).
  assert (H3 : 0 ≤ num_edges (load two_points) < 2 ^ 32) by (by vm_compute).
  assert (H4 : link_points (load two_points) = Ok (complete_graph (load two_points)))
    by (by vm_compute).
  assert (H5 : foldM run_op [Unlink 0 1; Finalize (Some (Line V 1)); Unlink 1 0]
    (complete_graph (load two_points)) = Ok separated_pair) by (by vm_compute).
  split; [exact H1|]. split; [exact H2|]. split; [exact H3|].
  split; [exact H4|]. split; [exact H5|].
  exact (graph_stays_symmetric (load two_points) _ _ _ H1 H2 H3 H4 H5).
Defined.

(** * Further properties of the engine *)

(** The score as a count *)

Lemma foldM_sum {A} (w : A → Z) (body : A → Z → result Z) l k :
  (∀ a k, a ∈ l → body a k = Ok (k + w a)) →
  foldM body l k = Ok (k + foldr (λ a s, w a + s) 0 l).
Proof.
  revert k. induction l as [|a l IH]; intros k Hb; simpl.
  - by rewrite Z.add_0_r.
  - rewrite Hb by left. simpl. rewrite IH.
    + f_equal. lia.
    + intros b k' Hin. apply Hb. by right.
Qed.

Lemma sum_list_with_fmap {A B} (g : A → B) (f : B → nat) l :
  sum_list_with f (g <$> l) = sum_list_with (f ∘ g) l.
Proof. induction l as [|a l IH]; csimpl; [done|]. by rewrite IH. Qed.

Lemma sum_list_with_filter {A} (P : A → Prop) `{∀ a, Decision (P a)}
    (f : A → nat) l :
  sum_list_with f (filter P l) =
  sum_list_with (λ a, if decide (P a) then f a else 0%nat) l.
Proof.
  induction l as [|a l IH]; simpl; [done|].
  rewrite filter_cons. destruct (decide (P a)); simpl; by rewrite IH.
Qed.

Lemma sum_list_with_ext {A} (f g : A → nat) l :
  (∀ a, a ∈ l → f a = g a) → sum_list_with f l = sum_list_with g l.
Proof.
  induction l as [|a l IH]; intros Hfg; simpl; [done|].
  rewrite Hfg by left. rewrite IH; [done|]. intros ??. apply Hfg. by right.
Qed.

Lemma foldr_sum_list_with {A} (f : A → nat) l :
  foldr (λ a s, Z.of_nat (f a) + s) 0 l = Z.of_nat (sum_list_with f l).
Proof. induction l as [|a l IH]; simpl; [done|]. rewrite IH. lia. Qed.

Lemma elem_of_all_pairs n a b :
  (a, b) ∈ all_pairs n ↔ (a < n)%nat ∧ (b < n)%nat.
Proof.
  unfold all_pairs. rewrite list_elem_of_bind. split.
  - intros (a' & Hb & Ha). apply list_elem_of_fmap in Hb as (b' & ? & Hb).
    simplify_eq. apply elem_of_seq in Ha, Hb. lia.
  - intros [Ha Hb]. exists a. split.
    + apply list_elem_of_fmap. exists b. split; [done|]. apply elem_of_seq. lia.
    + apply elem_of_seq. lia.
Qed.

Lemma NoDup_pairs (la lb : list nat) :
  NoDup la → NoDup lb → NoDup (a ← la; (λ b, (a, b)) <$> lb).
Proof.
  intros Ha Hb. apply NoDup_bind.
  - intros a1 a2 p _ _ H1 H2.
    apply list_elem_of_fmap in H1 as (? & -> & _).
    apply list_elem_of_fmap in H2 as (? & ? & _). by simplify_eq.
  - intros a _. apply NoDup_fmap_2_strong; [|done].
    intros ?? _ _ ?. by simplify_eq.
  - done.
Qed.

Lemma NoDup_split_pairs n c : NoDup (split_pairs n c).
Proof. apply NoDup_pairs; apply NoDup_seq. Qed.

Lemma NoDup_all_pairs n : NoDup (all_pairs n).
Proof. apply NoDup_pairs; apply NoDup_seq. Qed.

Lemma instance_axis_NoDup st a : instance_ok st → NoDup (axis_points st a).
Proof.
  intros Hok. rewrite (instance_axis_perm st a Hok). apply NoDup_seq.
Qed.

Lemma point_at_lookup pts i p : pts !! i = Some p → point_at pts i = p.
Proof. intros Hi. unfold point_at. by rewrite Hi. Qed.

(** The points a split visits are the pairs the line cuts, each once. *)
Lemma split_pairs_cut st ln c :
  instance_ok st →
  (∀ i j p q,
      axis_points st (axis ln) !! i = Some p →
      axis_points st (axis ln) !! j = Some q →
      ((i, j) ∈ split_pairs (length (mypoints st)) c ↔ cuts st ln p q = true)) →
  (λ p, (point_at (axis_points st (axis ln)) p.1,
         point_at (axis_points st (axis ln)) p.2))
    <$> split_pairs (length (mypoints st)) c
  ≡ₚ filter (λ p, cuts st ln p.1 p.2 = true) (all_pairs (length (mypoints st))).
Proof.
  intros Hok Hc. set (pts := axis_points st (axis ln)).
  assert (Hin : ∀ i j, (i, j) ∈ split_pairs (length (mypoints st)) c →
            ∃ p q, pts !! i = Some p ∧ pts !! j = Some q).
  { intros i j Hij. apply elem_of_split_pairs in Hij.
    destruct (lookup_lt_is_Some_2 pts i) as [p Hp].
    { unfold pts. rewrite instance_axis_length by done. lia. }
    destruct (lookup_lt_is_Some_2 pts j) as [q Hq].
    { unfold pts. rewrite instance_axis_length by done. lia. }
    eauto. }
  apply NoDup_Permutation.
  - apply NoDup_fmap_2_strong; [|apply NoDup_split_pairs].
    intros [i j] [i' j'] Hij Hij' Heq. simpl in Heq.
    destruct (Hin i j Hij) as (p & q & Hp & Hq).
    destruct (Hin i' j' Hij') as (p' & q' & Hp' & Hq').
    rewrite (point_at_lookup pts i p), (point_at_lookup pts j q),
      (point_at_lookup pts i' p'), (point_at_lookup pts j' q') in Heq by done.
    simplify_eq.
    pose proof (instance_axis_NoDup st (axis ln) Hok) as Hnd.
    f_equal; eapply NoDup_lookup; eauto.
  - apply NoDup_filter, NoDup_all_pairs.
  - intros [a b]. rewrite list_elem_of_fmap, list_elem_of_filter. simpl. split.
    + intros ([i j] & Heq & Hij). simpl in Heq.
      destruct (Hin i j Hij) as (p & q & Hp & Hq).
      rewrite (point_at_lookup pts i p), (point_at_lookup pts j q) in Heq by done.
      simplify_eq. split; [by apply (Hc i j)|].
      apply elem_of_all_pairs. split; by eapply instance_axis_lookup.
    + intros [Hcut Hab]. apply elem_of_all_pairs in Hab as [Ha Hb].
      destruct (instance_axis_position st (axis ln) a Hok Ha) as [i Hi].
      destruct (instance_axis_position st (axis ln) b Hok Hb) as [j Hj].
      exists (i, j). simpl.
      rewrite (point_at_lookup _ i a), (point_at_lookup _ j b) by done.
      split; [done|]. by apply (Hc i j a b).
Qed.

Lemma score_cut_links st ln :
  instance_ok st → graph_ok st →
  links_to_break st (Some ln) = Ok (Z.of_nat (cut_links st ln)).
Proof.
  intros Hok Hg. unfold links_to_break.
  destruct (closest_point_spec st ln Hok) as (c & -> & Hrange & Hc). simpl.
  rewrite for_split_pairs, instance_npoints by done.
  set (pts := axis_points st (axis ln)).
  set (pairs := split_pairs (length (mypoints st)) c).
  set (w := λ p : nat * nat,
         if linked st (point_at pts p.1) (point_at pts p.2) then 1%nat else 0%nat).
  rewrite (foldM_sum (λ p, Z.of_nat (w p))).
  - rewrite foldr_sum_list_with. f_equal. rewrite Z.add_0_l. f_equal.
    unfold cut_links.
    transitivity (sum_list_with
      (λ p : nat * nat, if linked st p.1 p.2 then 1%nat else 0%nat)
      ((λ p, (point_at pts p.1, point_at pts p.2)) <$> pairs)).
    { by rewrite sum_list_with_fmap. }
    unfold pts, pairs. rewrite (split_pairs_cut st ln c Hok Hc).
    rewrite sum_list_with_filter. apply sum_list_with_ext. intros [a b] _. simpl.
    destruct (linked st a b), (cuts st ln a b); simpl; try done;
      by destruct (decide _).
  - intros [i j] k Hin. simpl.
    apply elem_of_split_pairs in Hin.
    destruct (lookup_lt_is_Some_2 pts i) as [p Hp].
    { unfold pts. rewrite instance_axis_length by done. lia. }
    destruct (lookup_lt_is_Some_2 pts j) as [q Hq].
    { unfold pts. rewrite instance_axis_length by done. lia. }
    rewrite Hp, Hq. simpl.
    destruct (lookup_lt_is_Some_2 (mypoints st) p) as [a Ha].
    { eapply instance_axis_lookup; [done|exact Hp]. }
    destruct (lookup_lt_is_Some_2 (mypoints st) q) as [b Hb].
    { eapply instance_axis_lookup; [done|exact Hq]. }
    unfold deref. rewrite Ha. simpl. rewrite Hb. simpl.
    destruct (graph_rows _ Hg _ _ Ha) as [Hida Hlena].
    destruct (graph_rows _ Hg _ _ Hb) as [Hidb Hlenb].
    rewrite Hida, Ha, Hidb. simpl.
    destruct (lookup_lt_is_Some_2 (connections a) q) as [e He].
    { rewrite Hlena. by apply lookup_lt_Some in Hb. }
    rewrite He. simpl. unfold w. simpl.
    rewrite (point_at_lookup pts i p), (point_at_lookup pts j q) by done.
    unfold linked. rewrite Ha, He. destruct e; f_equal; lia.
Qed.

(** The link counter as a count of ordered pairs *)

Lemma sum_list_with_bind {A B} (g : A → list B) (f : B → nat) l :
  sum_list_with f (l ≫= g) = sum_list_with (λ a, sum_list_with f (g a)) l.
Proof.
  induction l as [|a l IH]; csimpl; [done|].
  by rewrite sum_list_with_app, IH.
Qed.

Lemma sum_list_with_seq_lookup {A} (f : A → nat) (l : list A) :
  sum_list_with f l =
  sum_list_with (λ i, from_option f 0%nat (l !! i)) (seq 0 (length l)).
Proof.
  induction l as [|a l IH] using rev_ind; [done|].
  rewrite length_app.
  replace (length l + length [a])%nat with (S (length l)) by (simpl; lia).
  rewrite seq_S, !sum_list_with_app.
  simpl. rewrite list_lookup_middle by done. simpl. f_equal.
  rewrite IH. apply sum_list_with_ext. intros i Hi. apply elem_of_seq in Hi.
  by rewrite lookup_app_l by lia.
Qed.

Lemma active_count_pairs st :
  graph_ok st →
  active_count st =
  sum_list_with (λ p : nat * nat, if linked st p.1 p.2 then 1%nat else 0%nat)
                (all_pairs (length (mypoints st))).
Proof.
  intros Hg. unfold active_count, all_pairs.
  rewrite sum_list_with_bind, sum_list_with_seq_lookup.
  apply sum_list_with_ext. intros a Ha. apply elem_of_seq in Ha.
  destruct (lookup_lt_is_Some_2 (mypoints st) a) as [pa Hpa]; [lia|].
  rewrite Hpa. simpl. destruct (graph_rows _ Hg _ _ Hpa) as [_ Hlen].
  rewrite sum_list_with_fmap. unfold active_in.
  rewrite sum_list_with_seq_lookup, Hlen.
  apply sum_list_with_ext. intros b Hb. apply elem_of_seq in Hb. simpl.
  unfold linked. rewrite Hpa.
  destruct (connections pa !! b) as [[?|]|]; done.
Qed.

Lemma all_pairs_swap n : prod_swap <$> all_pairs n ≡ₚ all_pairs n.
Proof.
  apply NoDup_Permutation.
  - apply NoDup_fmap_2; [|apply NoDup_all_pairs].
    intros [??] [??] ?. by simplify_eq/=.
  - apply NoDup_all_pairs.
  - intros [a b]. rewrite list_elem_of_fmap. split.
    + intros ([a' b'] & ? & Hin). simplify_eq/=.
      apply elem_of_all_pairs in Hin. apply elem_of_all_pairs. lia.
    + intros Hin. exists (b, a). split; [done|].
      apply elem_of_all_pairs in Hin. apply elem_of_all_pairs. lia.
Qed.

Lemma sum_list_with_split3 {A} (f g h k : A → nat) l :
  (∀ a, a ∈ l → (f a + g a + h a = k a)%nat) →
  (sum_list_with f l + sum_list_with g l + sum_list_with h l = sum_list_with k l)%nat.
Proof.
  induction l as [|a l IH]; intros Hf; simpl; [done|].
  pose proof (Hf a ltac:(left)). 
  assert (∀ a, a ∈ l → (f a + g a + h a)%nat = k a) as Hl by (intros; apply Hf; by right).
  specialize (IH Hl). lia.
Qed.

(** A commit removes exactly the links the score counted. *)
Lemma commit_count st st' ln :
  graph_ok st → graph_ok st' → same_instance st st' →
  (∀ a b, linked st' a b =
     linked st a b && negb (cuts st ln a b || cuts st ln b a)) →
  num_edges st' = num_edges st - 2 * Z.of_nat (cut_links st ln).
Proof.
  intros Hg Hg' Hs Hl.
  rewrite (graph_count _ Hg), (graph_count _ Hg').
  rewrite !active_count_pairs by done.
  rewrite (same_instance_length _ _ Hs).
  set (n := length (mypoints st)).
  assert (Hswap : cut_links st ln =
    sum_list_with (λ p : nat * nat,
       if linked st p.1 p.2 && cuts st ln p.2 p.1 then 1%nat else 0%nat)
      (all_pairs n)).
  { unfold cut_links. fold n. rewrite <- (all_pairs_swap n) at 1.
    rewrite sum_list_with_fmap. apply sum_list_with_ext. intros [a b] _. simpl.
    by rewrite (graph_sym _ Hg). }
  pose proof (sum_list_with_split3
    (λ p : nat * nat, if linked st' p.1 p.2 then 1%nat else 0%nat)
    (λ p : nat * nat, if linked st p.1 p.2 && cuts st ln p.1 p.2 then 1%nat else 0%nat)
    (λ p : nat * nat, if linked st p.1 p.2 && cuts st ln p.2 p.1 then 1%nat else 0%nat)
    (λ p : nat * nat, if linked st p.1 p.2 then 1%nat else 0%nat)
    (all_pairs n)) as Hsum.
  rewrite <- Hswap in Hsum. unfold cut_links in *. fold n in Hsum |- *.
  rewrite <- Hsum; [lia|].
  intros [a b] _. simpl. rewrite Hl. unfold cuts.
  destruct (linked st a b), (beyond st ln a), (beyond st ln b); done.
Qed.

(** One turn of the loop, in full *)

Lemma linked_set_lines v st a b : linked (set_lines v st) a b = linked st a b.
Proof. done. Qed.

Lemma loop_ok_room st : loop_ok st → (length (final_lines st) < MAX_POINTS)%nat.
Proof.
  intros Hloop. pose proof (loop_roots _ Hloop). pose proof (roots_le st).
  destruct (loop_instance _ Hloop) as (_ & [_ ?] & _). lia.
Qed.

Lemma commit_step st :
  loop_ok st → num_edges st > 0 →
  ∃ idx ln st',
    lines st !! idx = Some (Some ln) ∧
    best_line st = Ok (idx, Z.of_nat (cut_links st ln)) ∧
    (1 ≤ cut_links st ln)%nat ∧
    (∀ j lj, lines st !! j = Some (Some lj) →
       (cut_links st lj ≤ cut_links st ln)%nat ∧
       ((j < idx)%nat → (cut_links st lj < cut_links st ln)%nat)) ∧
    commit_best st = Ok st' ∧ loop_ok st' ∧ same_instance st st' ∧
    final_lines st' = final_lines st ++ [ln] ∧
    lines st' = <[idx := None]> (lines st) ∧
    (∀ a b, linked st' a b = linked st a b && negb (separates st ln a b)) ∧
    num_edges st' = num_edges st - 2 * Z.of_nat (cut_links st ln).
Proof.
  intros Hloop Hpos.
  pose proof (loop_instance _ Hloop) as Hok.
  pose proof (loop_graph _ Hloop) as Hg.
  destruct (commit_best_spec st Hloop Hpos) as
    (idx & sc & ln & st' & Hbest & Hsc & Hidx & Hcommit & Hloop' & Hs & _ & _ & Hf & Hl).
  destruct (best_line_spec st idx sc Hbest) as (Hscore & _ & Hmax).
  rewrite (proj2 (line_at_Some st idx ln) Hidx) in Hscore.
  rewrite (score_cut_links st ln Hok Hg) in Hscore.
  assert (sc = Z.of_nat (cut_links st ln)) as -> by congruence.
  exists idx, ln, st'. split; [done|]. split; [done|]. split; [lia|].
  split.
  { intros j lj Hj. pose proof (lookup_lt_Some _ _ _ Hj) as Hlt.
    destruct (Hmax j (Z.of_nat (cut_links st lj)) Hlt) as [Hle Hless].
    { rewrite (proj2 (line_at_Some st j lj) Hj). by apply score_cut_links. }
    split; [lia|]. intros Hji. specialize (Hless Hji). lia. }
  split; [done|]. split; [done|]. split; [done|]. split; [done|]. split; [done|].
  destruct (finalize_lines_spec st ln Hok Hg (loop_ok_room st Hloop)) as
    (st1 & Hfin & Hg1 & Hs1 & _ & _ & Hlk & _).
  assert (Hst' : st' = set_lines (<[idx := None]> (lines st1)) st1).
  { unfold commit_best in Hcommit. rewrite Hbest in Hcommit. simpl in Hcommit.
    rewrite (proj2 (line_at_Some st idx ln) Hidx), Hfin in Hcommit.
    simpl in Hcommit. congruence. }
  assert (Hlk' : ∀ a b, linked st' a b =
            linked st a b && negb (cuts st ln a b || cuts st ln b a)).
  { intros a b. by rewrite Hst', linked_set_lines. }
  split; [exact Hlk'|].
  apply commit_count; [done|apply (loop_graph _ Hloop')|done|done].
Qed.

(** The cells of the committed lines *)

Lemma same_instance_separates st st' ln a b :
  same_instance st st' → separates st' ln a b = separates st ln a b.
Proof. intros Hs. unfold separates. by rewrite !(same_instance_cuts st st'). Qed.

Lemma cut_links_zero st ln :
  (∀ a b, linked st a b = true → cuts st ln a b = false) → cut_links st ln = 0%nat.
Proof.
  intros Hz. unfold cut_links.
  rewrite (sum_list_with_const _ _ 0%nat); [lia|].
  intros _ [a b] _. simpl. destruct (linked st a b) eqn:Hl; [|done].
  by rewrite (Hz a b Hl).
Qed.

Lemma cut_links_pos st ln :
  (0 < cut_links st ln)%nat → ∃ a b, linked st a b = true ∧ cuts st ln a b = true.
Proof.
  intros Hpos. apply sum_list_with_pos in Hpos as (i & [a b] & _ & Hab).
  simpl in Hab. exists a, b.
  destruct (linked st a b), (cuts st ln a b); simpl in Hab; first [lia|done].
Qed.

Lemma cells_committed st ln :
  graph_ok st → cells st → ln ∈ final_lines st → cut_links st ln = 0%nat.
Proof.
  intros Hg Hc Hin. apply cut_links_zero. intros a b Hl.
  destruct (linked_lt st a b Hg Hl) as [Ha Hb].
  assert (a ≠ b) as Hab.
  { intros ->. by rewrite (graph_irrefl _ Hg) in Hl. }
  pose proof (proj1 (Hc a b Ha Hb Hab) Hl ln Hin) as Hsep.
  unfold separates in Hsep. by apply orb_false_iff in Hsep as [? _].
Qed.

Lemma run_ok_init st0 :
  instance_ok st0 → lines st0 = [] → final_lines st0 = [] →
  run_ok (with_candidates (complete_graph st0)) (with_candidates (complete_graph st0)).
Proof.
  intros Hok Hl Hf. constructor.
  - by apply loop_ok_init.
  - apply same_instance_refl.
  - intros a b Ha Hb Hab. simpl in Ha, Hb. rewrite length_linked_rows in Ha, Hb.
    change (linked (with_candidates (complete_graph st0)) a b)
      with (linked (complete_graph st0) a b).
    rewrite linked_complete_graph. split.
    + intros _ ln Hin. simpl in Hin. rewrite Hf in Hin. by apply elem_of_nil in Hin.
    + intros _. by apply bool_decide_eq_true.
  - simpl. rewrite Hf. constructor.
  - intros j ln Hj. by eapply list_elem_of_lookup_2.
  - intros ln Hin. simpl in Hin. rewrite Hf in Hin. by apply elem_of_nil in Hin.
  - intros i ln Hi. simpl in Hi. by rewrite Hf in Hi.
Qed.

Lemma run_ok_step st0 st st' :
  run_ok st0 st → loop_step st st' → run_ok st0 st'.
Proof.
  intros [Hloop Hs Hc Hnd Hpool Hfin Hfresh] Hstep.
  destruct Hstep as [st st' Hpos Hcommit].
  destruct (commit_step st Hloop Hpos) as
    (idx & ln & st1 & Hidx & _ & Hsc & _ & Hcommit1 & Hloop1 & Hs1 & Hf1 & Hl1 & Hlk & _).
  assert (st1 = st') as -> by congruence.
  constructor.
  - done.
  - by eapply same_instance_trans.
  - intros a b Ha Hb Hab. rewrite (same_instance_length _ _ Hs1) in Ha, Hb.
    rewrite Hlk, Hf1, andb_true_iff, negb_true_iff, (Hc a b Ha Hb Hab). split.
    + intros [Hold Hnew] l Hin. rewrite (same_instance_separates st st') by done.
      apply elem_of_app in Hin as [Hin|Hin]; [by apply Hold|].
      apply list_elem_of_singleton in Hin. by subst.
    + intros Hall. split.
      * intros l Hin. rewrite <- (same_instance_separates st st') by done.
        apply Hall. apply elem_of_app. by left.
      * rewrite <- (same_instance_separates st st') by done.
        apply Hall. apply elem_of_app. right. by left.
  - rewrite Hf1. apply NoDup_app. split; [done|]. split; [|apply NoDup_singleton].
    intros l Hin Hl. apply list_elem_of_singleton in Hl. subst l.
    rewrite (cells_committed st ln (loop_graph _ Hloop) Hc Hin) in Hsc. lia.
  - intros j l Hj. rewrite Hl1 in Hj.
    destruct (decide (j = idx)) as [->|Hne].
    + rewrite list_lookup_insert_eq in Hj by (by eapply lookup_lt_Some). done.
    + rewrite list_lookup_insert_ne in Hj by done. by eapply Hpool.
  - intros l Hin. rewrite Hf1 in Hin.
    apply elem_of_app in Hin as [Hin|Hin]; [by apply Hfin|].
    apply list_elem_of_singleton in Hin. subst l. by eapply Hpool.
  - intros i l Hi. rewrite Hf1 in Hi |- *.
    destruct (decide (i < length (final_lines st))%nat) as [Hlt|Hge].
    + rewrite lookup_app_l in Hi by done.
      rewrite take_app_le by lia. by apply Hfresh.
    + pose proof (lookup_lt_Some _ _ _ Hi) as Hlen.
      rewrite length_app in Hlen. simpl in Hlen.
      assert (i = length (final_lines st)) as -> by lia.
      rewrite list_lookup_middle in Hi by done. simplify_eq.
      rewrite take_app_length.
      destruct (cut_links_pos st l) as (a & b & Hab & Hcut); [lia|].
      destruct (linked_lt st a b (loop_graph _ Hloop) Hab) as [Ha Hb].
      assert (a ≠ b) as Hne.
      { intros ->. by rewrite (graph_irrefl _ (loop_graph _ Hloop)) in Hab. }
      exists a, b. rewrite <- (same_instance_length _ _ Hs).
      split; [done|]. split; [done|]. split.
      * rewrite <- (same_instance_separates st0 st) by done.
        unfold separates. by rewrite Hcut.
      * intros l' Hl'. rewrite <- (same_instance_separates st0 st) by done.
        by apply (proj1 (Hc a b Ha Hb Hne) Hab).
Qed.

Lemma run_ok_steps st0 st st' :
  run_ok st0 st → rtc loop_step st st' → run_ok st0 st'.
Proof.
  intros Hrun Hsteps. induction Hsteps as [|st st1 st' Hstep _ IH]; [done|].
  apply IH. by eapply run_ok_step.
Qed.

Lemma loop_state_run_ok st0 st :
  loop_state st0 st → run_ok (with_candidates (complete_graph st0)) st.
Proof.
  intros (Hok & He & Hl & Hf & st1 & st2 & Hlink & Hpre & Hsteps).
  destruct (start_run st0 Hok He Hl) as [Hlink' Hpre'].
  assert (st1 = complete_graph st0) as -> by congruence.
  assert (st2 = with_candidates (complete_graph st0)) as -> by congruence.
  eapply run_ok_steps; [|done]. by apply run_ok_init.
Qed.


(** ** The instances of the examples *)

Lemma three_points_instance : instance_ok (load three_points).
Proof. apply (bool_decide_unpack _). by vm_compute. Qed.

Lemma start_three_points_instance : instance_ok (start three_points).
Proof. apply (bool_decide_unpack _). by vm_compute. Qed.

Lemma start_three_points_reached :
  loop_state (load three_points) (start three_points).
Proof.
  split; [exact three_points_instance|]. do 3 (split; [done|]).
  exists (complete_graph (load three_points)), (start three_points).
  split; [by vm_compute|]. split; [by vm_compute|]. done.
Qed.

Lemma after_first_commit_reached :
  loop_state (load three_points) after_first_commit.
Proof.
  split; [exact three_points_instance|]. do 3 (split; [done|]).
  exists (complete_graph (load three_points)), (start three_points).
  split; [by vm_compute|]. split; [by vm_compute|].
  apply rtc_once. apply LoopStep; by vm_compute.
Qed.

Lemma start_three_points_graph : graph_ok (start three_points).
Proof.
  exact (loop_graph _ (run_loop _ _
    (loop_state_run_ok _ _ start_three_points_reached))).
Qed.


Lemma after_first_commit_graph : graph_ok after_first_commit.
Proof.
  exact (loop_graph _ (run_loop _ _
    (loop_state_run_ok _ _ after_first_commit_reached))).
Qed.

(** ** The score and the commit *)





(** X3. Once a line is committed it scores 0, and a commit raises the score
    of no line: whatever line is scored before and after, the score after is
    at most the score before. *)
Theorem committed_line_scores_zero st ln st' :
  instance_ok st → graph_ok st → finalize_lines (Some ln) st = Ok st' →
  links_to_break st' (Some ln) = Ok 0 ∧
  ∀ ln2, ∃ k k',
    links_to_break st (Some ln2) = Ok k ∧ links_to_break st' (Some ln2) = Ok k' ∧
    0 ≤ k' ≤ k.
Proof.
  intros Hok Hg Hfin.
  assert (Hroom : (length (final_lines st) < MAX_POINTS)%nat).
  { unfold finalize_lines in Hfin. destruct (decide _); [done|lia]. }
  destruct (finalize_lines_spec st ln Hok Hg Hroom) as
    (st1 & Hfin1 & Hg' & Hs & _ & _ & Hlk & _).
  assert (st1 = st') as -> by congruence.
  pose proof (same_instance_ok _ _ Hs Hok) as Hok'.
  split.
  - rewrite (score_cut_links st' ln Hok' Hg'). f_equal.
    rewrite cut_links_zero; [done|]. intros a b Hl.
    rewrite Hlk, andb_true_iff, negb_true_iff in Hl. destruct Hl as [_ Hsep].
    unfold separates in Hsep. apply orb_false_iff in Hsep as [Hab _].
    by rewrite (same_instance_cuts st st').
  - intros ln2. exists (Z.of_nat (cut_links st ln2)), (Z.of_nat (cut_links st' ln2)).
    split; [by apply score_cut_links|]. split; [by apply score_cut_links|].
    split; [lia|]. apply inj_le. unfold cut_links.
    rewrite (same_instance_length _ _ Hs).
    induction (all_pairs (length (mypoints st))) as [|[a b] l IH]; simpl; [done|].
    apply Nat.add_le_mono; [|done].
    rewrite Hlk, (same_instance_cuts st st') by done.
    destruct (linked st a b), (negb _), (cuts st ln2 a b); simpl; lia.
Qed.

(** X3 on the three points, for the first line committed, x = 1.0. *)
Lemma committed_line_scores_zero_witness :
  instance_ok (start three_points) ∧ graph_ok (start three_points) ∧
  finalize_lines (Some (Line V 1)) (start three_points) =
    Ok (set_lines (lines (start three_points)) after_first_commit) ∧
  links_to_break (set_lines (lines (start three_points)) after_first_commit)
    (Some (Line V 1)) = Ok 0 ∧
  ∀ ln2, ∃ k k',
    links_to_break (start three_points) (Some ln2) = Ok k ∧
    links_to_break (set_lines (lines (start three_points)) after_first_commit)
      (Some ln2) = Ok k' ∧
    0 ≤ k' ≤ k.
Proof.
  assert (Hfin : finalize_lines (Some (Line V 1)) (start three_points) =
            Ok (set_lines (lines (start three_points)) after_first_commit))
    by (by vm_compute).
  split; [exact start_three_points_instance|].
  split; [exact start_three_points_graph|]. split; [exact Hfin|].
  exact (committed_line_scores_zero (start three_points) (Line V 1) _
           start_three_points_instance start_three_points_graph Hfin).
Defined.

(** ** The greedy choice *)



(** ** The cells of the committed lines *)



(** ** A whole run *)










(** [main], one instance at a time *)







(** ** The solution of an instance *)



(** ** Several instances *)




(** ** The consistency check of [link_points] *)

Lemma bind_no_exit {A B} (m : result A) (k : A → result B) :
  m ≠ Exit → (∀ a, k a ≠ Exit) → m ≫= k ≠ Exit.
Proof. intros Hm Hk. destruct m; simpl; [apply Hk|done..]. Qed.

Lemma valid_no_exit {A} (o : option A) : valid o ≠ Exit.
Proof. by destruct o. Qed.

Lemma foldM_no_exit {A T} (body : A → T → result T) l s :
  (∀ a s, body a s ≠ Exit) → foldM body l s ≠ Exit.
Proof.
  intros Hb. revert s. induction l as [|a l IH]; intros s; simpl; [done|].
  by apply bind_no_exit.
Qed.

Lemma unlink_points_no_exit a b st : unlink_points a b st ≠ Exit.
Proof.
  unfold unlink_points, deref.
  repeat (apply bind_no_exit; [apply valid_no_exit|intros ?]).
  destruct a2; [|done].
  repeat (apply bind_no_exit; [apply valid_no_exit|intros ?]). done.
Qed.

Lemma closest_point_no_exit st ln : closest_point st ln ≠ Exit.
Proof.
  unfold closest_point. generalize 0%nat.
  induction (Z.to_nat (num_points st)) as [|n IH]; intros i; simpl; [done|].
  unfold deref. repeat (apply bind_no_exit; [apply valid_no_exit|intros ?]).
  destruct (Qltb _ _); [done|apply IH].
Qed.

Lemma links_to_break_no_exit st ln : links_to_break st ln ≠ Exit.
Proof.
  destruct ln as [ln|]; simpl; [|done].
  apply bind_no_exit; [apply closest_point_no_exit|intros c].
  unfold for_split, for_loop. apply foldM_no_exit. intros i k.
  apply foldM_no_exit. intros j k'. unfold deref.
  repeat (apply bind_no_exit; [apply valid_no_exit|intros ?]). done.
Qed.

Lemma finalize_lines_no_exit ln st : finalize_lines ln st ≠ Exit.
Proof.
  destruct ln as [ln|]; simpl; [|done]. destruct (decide _); [done|].
  apply bind_no_exit; [apply closest_point_no_exit|intros c].
  apply bind_no_exit; [|done].
  unfold for_split, for_loop. apply foldM_no_exit. intros i s.
  apply foldM_no_exit. intros j s'.
  do 2 (apply bind_no_exit; [apply valid_no_exit|intros ?]).
  apply unlink_points_no_exit.
Qed.

Lemma commit_best_no_exit st : commit_best st ≠ Exit.
Proof.
  unfold commit_best, best_line, for_loop.
  apply bind_no_exit.
  - apply bind_no_exit; [apply links_to_break_no_exit|intros k].
    apply foldM_no_exit. intros j best.
    apply bind_no_exit; [apply links_to_break_no_exit|done].
  - intros best. apply bind_no_exit; [apply finalize_lines_no_exit|done].
Qed.

Lemma greedy_loop_no_exit fuel st : greedy_loop fuel st ≠ Exit.
Proof.
  revert st. induction fuel as [|fuel IH]; intros st; simpl;
    destruct (decide _); try done.
  apply bind_no_exit; [apply commit_best_no_exit|apply IH].
Qed.

Lemma pre_separate_no_exit st : pre_separate st ≠ Exit.
Proof.
  assert (Hadd : ∀ ln s, add_line ln s ≠ Exit).
  { intros ln s. unfold add_line. by destruct (decide _). }
  unfold pre_separate, for_loop.
  apply bind_no_exit; [|intros st1]; apply foldM_no_exit; intros i s; unfold deref;
    repeat (apply bind_no_exit; [apply valid_no_exit|intros ?]); apply Hadd.
Qed.

(** X8. [main] never leaves through the [exit(0)] of [link_points],
    whatever the instance files hold and however long the loop runs:
    [num_edges] is 0 whenever [link_points] starts, since it starts at 0 and
    [restore] resets it after every instance, and [read_file] stores at most
    [MAX_POINTS] points, so that the count of [link_points] cannot wrap. *)
Theorem main_never_exits fuel files : main fuel files ≠ Exit.
Proof.
  unfold main. generalize (take (MAX_POINTS - 1) files). clear files.
  intros files.
  assert (He : num_edges initial_state = 0) by done.
  revert He. generalize initial_state, (@nil (nat * list myline)), 1%nat.
  induction files as [|f files IH]; intros st written k He; simpl; [done|].
  destruct (read_file f st) as [status st1] eqn:Hread.
  assert (He1 : num_edges st1 = 0).
  { destruct f; simpl in Hread; simplify_eq; try done.
    destruct (decide _); by simplify_eq. }
  destruct status; try by apply IH.
  assert (Hn : num_points st1 = Z.of_nat (length (mypoints st1)) ∧
               (length (mypoints st1) ≤ MAX_POINTS)%nat).
  { destruct f as [| |count pairs]; simpl in Hread; try by simplify_eq.
    destruct (decide _) as [Heq|]; simplify_eq. simpl.
    rewrite length_fmap. split; [done|]. rewrite length_take. lia. }
  destruct Hn as [Hn Hcap].
  apply bind_no_exit; [|intros st3; by apply IH].
  unfold separate. cbv zeta.
  rewrite (link_points_spec (sort_y_points st1)); [|done|done|simpl; lia].
  rewrite decide_True by done. rewrite mbind_Ok.
  apply bind_no_exit; [apply pre_separate_no_exit|intros st2].
  apply greedy_loop_no_exit.
Qed.

(** ** Unlinking and sorting *)

Lemma unlink_points_linked st a b pa pb :
  graph_ok st → mypoints st !! a = Some pa → mypoints st !! b = Some pb →
  linked st a b = true →
  unlink_points a b st =
  Ok (State (<[b := set_connections (<[a := None]> (connections pb)) pb]>
               (<[a := set_connections (<[b := None]> (connections pa)) pa]>
                  (mypoints st)))
            (x_points st) (y_points st) (lines st) (final_lines st)
            (num_points st) (wrap32 (num_edges st - 2))).
Proof.
  intros Hg Ha Hb Hl.
  destruct (graph_rows _ Hg _ _ Ha) as [Hida Hlena].
  destruct (graph_rows _ Hg _ _ Hb) as [Hidb Hlenb].
  assert (a ≠ b) as Hab.
  { intros ->. by rewrite (graph_irrefl _ Hg) in Hl. }
  unfold linked in Hl. rewrite Ha in Hl.
  destruct (connections pa !! b) as [[c|]|] eqn:Hc; try discriminate.
  destruct (lookup_lt_is_Some_2 (connections pb) a) as [d Hd].
  { rewrite Hlenb. by apply lookup_lt_Some in Ha. }
  unfold unlink_points, deref. rewrite Ha, Hb. simpl. rewrite Hidb, Hc. simpl.
  rewrite (list_lookup_insert_ne (mypoints st) a b) by done.
  rewrite Hb. simpl.
  rewrite list_lookup_insert_eq by (by eapply lookup_lt_Some).
  simpl. rewrite Hida, Hd. simpl. done.
Qed.

(** X9. [unlink_points] does not depend on the order of its two arguments:
    unlinking [a] from [b] and unlinking [b] from [a] leave the same state. *)
Theorem unlink_points_symmetric st a b :
  graph_ok st → (a < length (mypoints st))%nat → (b < length (mypoints st))%nat →
  unlink_points a b st = unlink_points b a st.
Proof.
  intros Hg Ha Hb. destruct (linked st a b) eqn:Hl.
  - destruct (lookup_lt_is_Some_2 _ _ Ha) as [pa Hpa].
    destruct (lookup_lt_is_Some_2 _ _ Hb) as [pb Hpb].
    assert (a ≠ b) as Hab.
    { intros ->. by rewrite (graph_irrefl _ Hg) in Hl. }
    rewrite (unlink_points_linked st a b pa pb) by done.
    rewrite (unlink_points_linked st b a pb pa) by (by rewrite 1?(graph_sym _ Hg)).
    f_equal. f_equal. by apply list_insert_insert_ne.
  - rewrite (unlink_points_noop st a b) by done.
    rewrite (unlink_points_noop st b a); [done..|].
    by rewrite (graph_sym _ Hg).
Qed.

(** X9 on the last link of the three points after the first commit. *)
Lemma unlink_points_symmetric_witness :
  graph_ok after_first_commit ∧
  (1 < length (mypoints after_first_commit))%nat ∧
  (2 < length (mypoints after_first_commit))%nat ∧
  unlink_points 1 2 after_first_commit = unlink_points 2 1 after_first_commit.
Proof.
  assert (H1 : (1 < length (mypoints after_first_commit))%nat) by (vm_compute; lia).
  assert (H2 : (2 < length (mypoints after_first_commit))%nat) by (vm_compute; lia).
  split; [exact after_first_commit_graph|]. split; [exact H1|]. split; [exact H2|].
  exact (unlink_points_symmetric after_first_commit 1 2
           after_first_commit_graph H1 H2).
Defined.



(** ** Loading an instance *)



(** ** The pool suffices *)


